(** * app/app.go of mattermost-server: lifecycle control of optional services

    A shallow embedding of the functions of [app/app.go] that decide when the
    Elasticsearch capability is started and stopped, how the diagnostic id is
    materialised, how the job server is wired and how the installation date is
    read, followed by the properties proved about them.

    Conventions.
    - Go interfaces ([store.SystemStore], [einterfaces.ElasticsearchInterface])
      are type classes over the state of the implementation behind them.
    - Everything outside the [App] value (database, search engine, logger,
      random source) lives in a [World]; every interaction with it is appended
      to [trace], the observable history of the process.
    - A closure handed to [a.Srv.Go] is a [Task]: a computation over the
      [World]; [a.Srv.Go] only records it, running it is a separate step. *)

From Stdlib Require Import ZArith Lia Bool Ascii.
From stdpp Require Import base strings gmap list.


(** ** A small state monad, used for method bodies and for closures *)

Definition State (Σ A : Type) : Type := Σ -> A * Σ.

#[export] Instance state_ret {Σ} : MRet (State Σ) :=
  fun A (x : A) σ => (x, σ).

#[export] Instance state_bind {Σ} : MBind (State Σ) :=
  fun A B (k : A -> State Σ B) (m : State Σ A) σ =>
    let (x, σ') := m σ in k x σ'.

(** The state a computation ends in, and the value it returns. *)
Definition exec {Σ A} (m : State Σ A) (σ : Σ) : Σ := snd (m σ).
Definition eval {Σ A} (m : State Σ A) (σ : Σ) : A := fst (m σ).

(** ** package model *)

Module model.

(** Modelled from the spec: [model.AppError] is declared outside
    [app/app.go]; the spec describes it as "a typed application error
    carrying an HTTP-style status code and a message key". *)
Record AppError := {
  Where : string;
  Id : string;
  DetailedError : string;
  StatusCode : Z
}.

(** Modelled from the spec: [model.NewAppError(where, id, params, details,
    status)], declared outside [app/app.go], builds the typed error from
    its arguments. *)
Definition NewAppError (where_ id details : string) (status : Z) : AppError :=
  {| Where := where_; Id := id; DetailedError := details; StatusCode := status |}.

Record System := { Name : string; Value : string }.

(** [model.StringMap] is [map[string]string]. *)
Abbreviation StringMap := (gmap string string).

(** Indexing a Go map at a missing key yields the zero value. *)
Definition index (props : StringMap) (k : string) : string :=
  default EmptyString (props !! k).

Record ElasticsearchSettings := {
  ConnectionUrl : string;
  Username : string;
  Password : string;
  EnableIndexing : bool;
  Sniff : bool
}.

(** [model.Config], of which [app/app.go] reads [ElasticsearchSettings]; the
    fields are pointers set by the defaults, read here as their values. *)
Record Config := { Elasticsearch_ : ElasticsearchSettings }.

Record License := { LicenseId : string }.

End model.
Import model.

(** The six optional producers a job server can carry. *)
Inductive JobKind :=
| KDataRetention
| KMessageExport
| KElasticsearchAggregator
| KElasticsearchIndexer
| KLdapSync
| KMigrations.

#[export] Instance JobKind_eq_dec : EqDecision JobKind.
Proof. solve_decision. Defined.

(** ** Interfaces of the external collaborators *)

(** The result a store call delivers on its channel: [Err] or [Data]. *)
Inductive StoreResult (A : Type) : Type :=
| Data (d : A)
| Err (e : AppError).
Arguments Data {A} d.
Arguments Err {A} e.

(** [store.SystemStore], as far as [app/app.go] calls it. *)
Class SystemStore (S : Type) := {
  SystemGet : S -> StoreResult StringMap * S;
  SystemSave : System -> S -> option AppError * S;
  SystemGetByName : string -> S -> StoreResult System * S
}.

(** [einterfaces.ElasticsearchInterface], as far as [app/app.go] calls it.
    [None] is the nil error. *)
Class ElasticsearchInterface (E : Type) := {
  Start : E -> option AppError * E;
  Stop : E -> option AppError * E
}.

(** The random source behind [model.NewId]. *)
Class IdSource (G : Type) := {
  NewId : G -> string * G
}.

Inductive EsOp := OpStart | OpStop.

(** One entry per interaction with the outside of the [App] value. *)
Inductive Event :=
| EvSystemGet (r : StoreResult StringMap)
| EvSystemSave (sys : System) (r : option AppError)
| EvSystemGetByName (name : string) (r : StoreResult System)
| EvNewId (id : string)
| EvCall (op : EsOp)
| EvReturn (op : EsOp) (r : option AppError)
| EvLogError (msg : string).

(** ** In-memory implementations of the interfaces

    A store that keeps the properties in a map and fails on demand, an engine
    that fails on demand, and a random source that hands out a prepared list
    of identifiers. They let the model run on concrete inputs. *)

Record MemStore := {
  props : gmap string string;
  getErr : option AppError;
  saveErr : option AppError
}.

Definition MemStore_save (sys : System) (st : MemStore) : MemStore :=
  {| props := <[Name sys := Value sys]> (props st);
     getErr := getErr st; saveErr := saveErr st |}.

Definition notFound : AppError :=
  NewAppError "SqlSystemStore.GetByName" "store.sql_system.get_by_name.app_error"
    EmptyString 500.

#[export] Instance MemStore_SystemStore : SystemStore MemStore := {|
  SystemGet st :=
    (match getErr st with
     | Some e => Err e
     | None => Data (props st)
     end, st);
  SystemSave sys st :=
    match saveErr st with
    | Some e => (Some e, st)
    | None => (None, MemStore_save sys st)
    end;
  SystemGetByName name st :=
    (match getErr st with
     | Some e => Err e
     | None =>
         match props st !! name with
         | Some v => Data {| Name := name; Value := v |}
         | None => Err notFound
         end
     end, st)
|}.

Record Engine := {
  running : bool;
  startErr : option AppError;
  stopErr : option AppError
}.

#[export] Instance Engine_Elasticsearch : ElasticsearchInterface Engine := {|
  Start e :=
    match startErr e with
    | Some err => (Some err, e)
    | None => (None, {| running := true; startErr := None;
                        stopErr := stopErr e |})
    end;
  Stop e :=
    match stopErr e with
    | Some err => (Some err, e)
    | None => (None, {| running := false; startErr := startErr e;
                        stopErr := None |})
    end
|}.

#[export] Instance Prepared_IdSource : IdSource (list string) := {|
  NewId ids :=
    match ids with
    | id :: rest => (id, rest)
    | [] => ("aaaaaaaaaaaaaaaaaaaaaaaaaa", [])
    end
|}.

(** Concrete inputs for running the model. *)

Definition show (e : AppError) : string :=
  Where e +:+ ": " +:+ Id e +:+ ", " +:+ DetailedError e.

Definition refused : AppError :=
  NewAppError "Elasticsearch.Start" "ent.elasticsearch.start.error"
    "connection refused" 500.

Definition locked : AppError :=
  NewAppError "SqlSystemStore.Save" "store.sql_system.save.app_error"
    "database is locked" 500.

Definition engine_up : Engine :=
  {| running := true; startErr := None; stopErr := None |}.

Definition engine_failing : Engine :=
  {| running := true; startErr := Some refused; stopErr := Some refused |}.

Definition store_of (m : gmap string string) : MemStore :=
  {| props := m; getErr := None; saveErr := None |}.

Definition store_unreadable : MemStore :=
  {| props := ∅; getErr := Some locked; saveErr := None |}.

Definition store_unwritable : MemStore :=
  {| props := ∅; getErr := None; saveErr := Some locked |}.

Definition settings (enabled : bool) (password : string)
  : ElasticsearchSettings :=
  {| ConnectionUrl := "http://search:9200"; Username := "elastic";
     Password := password; EnableIndexing := enabled; Sniff := true |}.

Definition cfg (enabled : bool) (password : string) : Config :=
  {| Elasticsearch_ := settings enabled password |}.

(** No job interface carries data in the runs below. *)
Definition NoJob (k : JobKind) : Type := unit.

(** In the run of [initJobs] a job interface is the name of its job. *)
Definition JobName (k : JobKind) : Type := string.

(** ** strconv.ParseInt and net/http, as [getSystemInstallDate] uses them *)

Module http.
Definition StatusInternalServerError : Z := 500%Z.
End http.

Module strconv.

Local Open Scope Z_scope.

Inductive Cause := ErrSyntax | ErrRange.

(** [*strconv.NumError] *)
Record NumError := { Func : string; Num : string; Cause_ : Cause }.

Definition syntaxError (fn str : string) : NumError :=
  {| Func := fn; Num := str; Cause_ := ErrSyntax |}.
Definition rangeError (fn str : string) : NumError :=
  {| Func := fn; Num := str; Cause_ := ErrRange |}.

Definition byte (c : ascii) : Z := Z.of_N (N_of_ascii c).

Definition maxUint64 : Z := 2 ^ 64 - 1.
Definition uint64 (z : Z) : Z := z mod 2 ^ 64.
Definition int64 (z : Z) : Z := (z + 2 ^ 63) mod 2 ^ 64 - 2 ^ 63.

(** The [switch] of the digit loop: the value of a byte as a digit of a base
    up to 36, if it is one. *)
Definition digit_value (c : Z) : option Z :=
  if (byte "0" <=? c) && (c <=? byte "9") then Some (c - byte "0")
  else if (byte "a" <=? c) && (c <=? byte "z") then Some (c - byte "a" + 10)
  else if (byte "A" <=? c) && (c <=? byte "Z") then Some (c - byte "A" + 10)
  else None.

(** The digit loop of [ParseUint] at base 10 and bit size 64: [n] is the
    value read so far, [s0] the whole argument (for the error). [maxVal] is
    [uint64(1)<<64 - 1], which wraps to the largest 64-bit value. *)
Fixpoint ParseUint_loop (s0 s : string) (n : Z) : Z * option NumError :=
  match s with
  | EmptyString => (n, None)
  | String ch rest =>
      let cutoff := maxUint64 / 10 + 1 in
      let maxVal := uint64 (uint64 (Z.shiftl 1 64) - 1) in
      match digit_value (byte ch) with
      | None => (0, Some (syntaxError "ParseUint" s0))
      | Some d =>
          if d >=? 10 then (0, Some (syntaxError "ParseUint" s0))
          else if n >=? cutoff then (maxVal, Some (rangeError "ParseUint" s0))
          else
            let n' := uint64 (n * 10) in
            let n1 := uint64 (n' + d) in
            if (n1 <? n') || (n1 >? maxVal)
            then (maxVal, Some (rangeError "ParseUint" s0))
            else ParseUint_loop s0 rest n1
      end
  end.

(** [strconv.ParseUint(s, 10, 64)] *)
Definition ParseUint (s : string) : Z * option NumError :=
  if Nat.eqb (String.length s) 0 then (0, Some (syntaxError "ParseUint" s))
  else ParseUint_loop s s 0.

(** [strconv.ParseInt(s, 10, 64)] once the leading sign is picked off:
    [s0] is the whole argument, [neg] whether the sign was a minus, [s] what
    follows the sign. *)
Definition ParseInt_unsigned (s0 : string) (neg : bool) (s : string)
  : Z * option NumError :=
  let '(un, err) := ParseUint s in
  match err with
  | Some {| Cause_ := ErrSyntax |} =>
      (0, option_map (fun e => {| Func := "ParseInt"; Num := s0;
                                  Cause_ := Cause_ e |}) err)
  | _ =>
      let cutoff := uint64 (Z.shiftl 1 63) in
      if negb neg && (un >=? cutoff)
      then (int64 (cutoff - 1), Some (rangeError "ParseInt" s0))
      else if neg && (un >? cutoff)
      then (int64 (- int64 cutoff), Some (rangeError "ParseInt" s0))
      else
        let n := int64 un in
        let n := if neg then int64 (- n) else n in
        (n, None)
  end.

(** [strconv.ParseInt(s, 10, 64)] *)
Definition ParseInt (s : string) : Z * option NumError :=
  match s with
  | EmptyString => (0, Some (syntaxError "ParseInt" s))
  | String c0 tail =>
      if Ascii.eqb c0 "+" then ParseInt_unsigned s false tail
      else if Ascii.eqb c0 "-" then ParseInt_unsigned s true tail
      else ParseInt_unsigned s false s
  end.

(** What a base-10 64-bit integer is, independently of the parser: an
    optional sign, then one or more decimal digits, denoting a value in
    [-2^63, 2^63 - 1]. *)
Definition is_digit (ch : ascii) : bool :=
  (byte "0" <=? byte ch) && (byte ch <=? byte "9").

Fixpoint all_digits (s : string) : bool :=
  match s with
  | EmptyString => true
  | String ch rest => is_digit ch && all_digits rest
  end.

Fixpoint decimal_value (s : string) (acc : Z) : Z :=
  match s with
  | EmptyString => acc
  | String ch rest => decimal_value rest (acc * 10 + (byte ch - byte "0"))
  end.

Definition decimal_digits (neg : bool) (body : string) : option Z :=
  match body with
  | EmptyString => None
  | _ =>
      let v := if neg then - decimal_value body 0 else decimal_value body 0 in
      if all_digits body && (- 2 ^ 63 <=? v) && (v <=? 2 ^ 63 - 1)
      then Some v else None
  end.

Definition decimal_int64 (s : string) : option Z :=
  match s with
  | EmptyString => None
  | String c0 tail =>
      if Ascii.eqb c0 "+" then decimal_digits false tail
      else if Ascii.eqb c0 "-" then decimal_digits true tail
      else decimal_digits false s
  end.

(** A rendering of a [NumError], for the runs below. *)
Definition describe (e : NumError) : string :=
  "strconv." +:+ Func e +:+ ": parsing " +:+ Num e +:+ ": "
  +:+ match Cause_ e with
      | ErrSyntax => "invalid syntax"
      | ErrRange => "value out of range"
      end.

End strconv.

(** ** The process: the [World] outside, the [App] value inside *)

Section App.

Set Default Proof Using "Type".

Context {S E G : Type}.
Context `{!SystemStore S, !ElasticsearchInterface E, !IdSource G}.

(** [err.Error()] on a [model.AppError] and on the [error] of
    [strconv.ParseInt]; the texts are fixed outside [app/app.go]. *)
Variable AppError_Error : AppError -> string.
Variable NumError_Error : strconv.NumError -> string.

(** The keys [model.SYSTEM_DIAGNOSTIC_ID] and
    [model.SYSTEM_INSTALLATION_DATE_KEY]: constants of package [model]. *)
Variable SYSTEM_DIAGNOSTIC_ID : string.
Variable SYSTEM_INSTALLATION_DATE_KEY : string.

Record World := {
  store : S;          (* the database behind [a.Srv.Store] *)
  es : E;             (* the engine behind [a.Elasticsearch] *)
  rand : G;           (* the random source of [model.NewId] *)
  trace : list Event  (* interactions so far, oldest first *)
}.

Definition emit (evs : list Event) : State World unit :=
  fun w => ((), {| store := store w; es := es w; rand := rand w;
                   trace := trace w ++ evs |}).

(** [mlog.Error(msg)] *)
Definition mlog_Error (msg : string) : State World unit :=
  emit [EvLogError msg].

(** A call of [a.Elasticsearch.Start()] or [a.Elasticsearch.Stop()]: the call
    is entered, the engine runs it to completion, the result comes back. *)
Definition Elasticsearch_call (op : EsOp) : State World (option AppError) :=
  fun w =>
    let (r, e') := match op with
                   | OpStart => Start (es w)
                   | OpStop => Stop (es w)
                   end in
    (r, {| store := store w; es := e'; rand := rand w;
           trace := trace w ++ [EvCall op; EvReturn op r] |}).

(** [<-a.Srv.Store.System().Get()] *)
Definition Store_System_Get : State World (StoreResult StringMap) :=
  fun w =>
    let (r, s') := SystemGet (store w) in
    (r, {| store := s'; es := es w; rand := rand w;
           trace := trace w ++ [EvSystemGet r] |}).

(** [<-a.Srv.Store.System().Save(sys)] *)
Definition Store_System_Save (sys : System) : State World (option AppError) :=
  fun w =>
    let (r, s') := SystemSave sys (store w) in
    (r, {| store := s'; es := es w; rand := rand w;
           trace := trace w ++ [EvSystemSave sys r] |}).

(** [<-a.Srv.Store.System().GetByName(name)] *)
Definition Store_System_GetByName (name : string)
  : State World (StoreResult System) :=
  fun w =>
    let (r, s') := SystemGetByName name (store w) in
    (r, {| store := s'; es := es w; rand := rand w;
           trace := trace w ++ [EvSystemGetByName name r] |}).

(** [model.NewId()] *)
Definition model_NewId : State World string :=
  fun w =>
    let (id, g') := NewId (rand w) in
    (id, {| store := store w; es := es w; rand := g';
            trace := trace w ++ [EvNewId id] |}).

(** A closure [func() { ... }] handed to [a.Srv.Go]. *)
Definition Task : Type := State World unit.

(** *** package jobs, as [initJobs] uses it *)

(** The interface type behind each producer slot, the [*App] handle a factory
    receives, and the two derived collections. *)
Variable JobInterface : JobKind -> Type.
Variable AppRef : Type.
Variable Workers : Type.
Variable Schedulers : Type.

(** [jobs.JobServer]; [None] is a nil slot. The back references
    [ConfigService] and [Store] are left out. *)
Record JobServer := {
  JS_Workers : option Workers;
  JS_Schedulers : option Schedulers;
  DataRetentionJob : option (JobInterface KDataRetention);
  MessageExportJob : option (JobInterface KMessageExport);
  ElasticsearchAggregator : option (JobInterface KElasticsearchAggregator);
  ElasticsearchIndexer : option (JobInterface KElasticsearchIndexer);
  LdapSync : option (JobInterface KLdapSync);
  Migrations : option (JobInterface KMigrations)
}.

(** The slot of a kind. *)
Definition producer (k : JobKind) (j : JobServer) : option (JobInterface k) :=
  match k with
  | KDataRetention => DataRetentionJob j
  | KMessageExport => MessageExportJob j
  | KElasticsearchAggregator => ElasticsearchAggregator j
  | KElasticsearchIndexer => ElasticsearchIndexer j
  | KLdapSync => LdapSync j
  | KMigrations => Migrations j
  end.

(** *** Server and App *)

(** The fields of [Server] that [app/app.go] reads or writes. [s.Store] is a
    handle on [store] of the [World]; [config] and [licenseValue] are what
    [a.Config()] and [a.License()] read; [goroutines] are the closures
    handed to [s.Go], oldest first. *)
Record Server := {
  Jobs : option JobServer;
  diagnosticId : string;
  config : Config;
  licenseValue : option License;
  goroutines : list Task
}.

Definition set_Jobs (j : JobServer) (s : Server) : Server :=
  {| Jobs := Some j; diagnosticId := diagnosticId s; config := config s;
     licenseValue := licenseValue s; goroutines := goroutines s |}.

Definition set_diagnosticId (id : string) (s : Server) : Server :=
  {| Jobs := Jobs s; diagnosticId := id; config := config s;
     licenseValue := licenseValue s; goroutines := goroutines s |}.

(** Modelled from the spec: [s.Go(f)] is declared outside [app/app.go];
    the spec has it hand [f] to "a supervised background task", not run on
    the caller's thread. The closure is recorded; nothing of it runs here. *)
Definition Go (f : Task) (s : Server) : Server :=
  {| Jobs := Jobs s; diagnosticId := diagnosticId s; config := config s;
     licenseValue := licenseValue s; goroutines := goroutines s ++ [f] |}.

(** A config listener and a license listener, as closures over the server
    they dispatch on. *)
Definition ConfigListener : Type := Config -> Config -> Server -> Server.
Definition LicenseListener : Type := Server -> Server.

(** Modelled from the spec: the listener registries are declared outside
    [app/app.go]; the spec has them as an "ordered sequence of callbacks,
    insertion order = invocation order; append-only". *)
Record App := {
  Srv : Server;
  configListeners : list ConfigListener;
  licenseListeners : list LicenseListener
}.

Definition with_Srv (f : Server -> Server) (a : App) : App :=
  {| Srv := f (Srv a); configListeners := configListeners a;
     licenseListeners := licenseListeners a |}.

(** Modelled from the spec: [a.AddConfigListener], declared outside
    [app/app.go], "register[s] a handler". *)
Definition AddConfigListener (l : ConfigListener) (a : App) : App :=
  {| Srv := Srv a; configListeners := configListeners a ++ [l];
     licenseListeners := licenseListeners a |}.

(** Modelled from the spec: [a.AddLicenseListener], declared outside
    [app/app.go], "register[s] a handler". *)
Definition AddLicenseListener (l : LicenseListener) (a : App) : App :=
  {| Srv := Srv a; configListeners := configListeners a;
     licenseListeners := licenseListeners a ++ [l] |}.

(** Modelled from the spec: [a.License()], declared outside [app/app.go],
    reads the current license, "a nullable value". *)
Definition License_ (s : Server) : option License := licenseValue s.

(** *** initJobs *)

(** The package-level factory variables; [None] is nil. *)
Variable jobsDataRetentionJobInterface :
  option (AppRef -> JobInterface KDataRetention).
Variable jobsMessageExportJobInterface :
  option (AppRef -> JobInterface KMessageExport).
Variable jobsElasticsearchAggregatorInterface :
  option (AppRef -> JobInterface KElasticsearchAggregator).
Variable jobsElasticsearchIndexerInterface :
  option (AppRef -> JobInterface KElasticsearchIndexer).
Variable jobsLdapSyncInterface :
  option (AppRef -> JobInterface KLdapSync).
Variable jobsMigrationsInterface :
  option (AppRef -> JobInterface KMigrations).

(** The factory variable of a kind. *)
Definition factory (k : JobKind) : option (AppRef -> JobInterface k) :=
  match k with
  | KDataRetention => jobsDataRetentionJobInterface
  | KMessageExport => jobsMessageExportJobInterface
  | KElasticsearchAggregator => jobsElasticsearchAggregatorInterface
  | KElasticsearchIndexer => jobsElasticsearchIndexerInterface
  | KLdapSync => jobsLdapSyncInterface
  | KMigrations => jobsMigrationsInterface
  end.

(** [jobs.NewJobServer], [JobServer.InitWorkers],
    [JobServer.InitSchedulers] and [Server.FakeApp] are declared outside
    [app/app.go]. *)
Variable NewJobServer : Server -> JobServer.
Variable InitWorkers : JobServer -> Workers.
Variable InitSchedulers : JobServer -> Schedulers.
Variable FakeApp : Server -> AppRef.

(** The assignments [s.Jobs.X = v]. *)
Definition set_DataRetentionJob v (j : JobServer) : JobServer :=
  {| JS_Workers := JS_Workers j; JS_Schedulers := JS_Schedulers j;
     DataRetentionJob := Some v; MessageExportJob := MessageExportJob j;
     ElasticsearchAggregator := ElasticsearchAggregator j;
     ElasticsearchIndexer := ElasticsearchIndexer j;
     LdapSync := LdapSync j; Migrations := Migrations j |}.
Definition set_MessageExportJob v (j : JobServer) : JobServer :=
  {| JS_Workers := JS_Workers j; JS_Schedulers := JS_Schedulers j;
     DataRetentionJob := DataRetentionJob j; MessageExportJob := Some v;
     ElasticsearchAggregator := ElasticsearchAggregator j;
     ElasticsearchIndexer := ElasticsearchIndexer j;
     LdapSync := LdapSync j; Migrations := Migrations j |}.
Definition set_ElasticsearchAggregator v (j : JobServer) : JobServer :=
  {| JS_Workers := JS_Workers j; JS_Schedulers := JS_Schedulers j;
     DataRetentionJob := DataRetentionJob j;
     MessageExportJob := MessageExportJob j;
     ElasticsearchAggregator := Some v;
     ElasticsearchIndexer := ElasticsearchIndexer j;
     LdapSync := LdapSync j; Migrations := Migrations j |}.
Definition set_ElasticsearchIndexer v (j : JobServer) : JobServer :=
  {| JS_Workers := JS_Workers j; JS_Schedulers := JS_Schedulers j;
     DataRetentionJob := DataRetentionJob j;
     MessageExportJob := MessageExportJob j;
     ElasticsearchAggregator := ElasticsearchAggregator j;
     ElasticsearchIndexer := Some v;
     LdapSync := LdapSync j; Migrations := Migrations j |}.
Definition set_LdapSync v (j : JobServer) : JobServer :=
  {| JS_Workers := JS_Workers j; JS_Schedulers := JS_Schedulers j;
     DataRetentionJob := DataRetentionJob j;
     MessageExportJob := MessageExportJob j;
     ElasticsearchAggregator := ElasticsearchAggregator j;
     ElasticsearchIndexer := ElasticsearchIndexer j;
     LdapSync := Some v; Migrations := Migrations j |}.
Definition set_Migrations v (j : JobServer) : JobServer :=
  {| JS_Workers := JS_Workers j; JS_Schedulers := JS_Schedulers j;
     DataRetentionJob := DataRetentionJob j;
     MessageExportJob := MessageExportJob j;
     ElasticsearchAggregator := ElasticsearchAggregator j;
     ElasticsearchIndexer := ElasticsearchIndexer j;
     LdapSync := LdapSync j; Migrations := Some v |}.
Definition set_Workers v (j : JobServer) : JobServer :=
  {| JS_Workers := Some v; JS_Schedulers := JS_Schedulers j;
     DataRetentionJob := DataRetentionJob j;
     MessageExportJob := MessageExportJob j;
     ElasticsearchAggregator := ElasticsearchAggregator j;
     ElasticsearchIndexer := ElasticsearchIndexer j;
     LdapSync := LdapSync j; Migrations := Migrations j |}.
Definition set_Schedulers v (j : JobServer) : JobServer :=
  {| JS_Workers := JS_Workers j; JS_Schedulers := Some v;
     DataRetentionJob := DataRetentionJob j;
     MessageExportJob := MessageExportJob j;
     ElasticsearchAggregator := ElasticsearchAggregator j;
     ElasticsearchIndexer := ElasticsearchIndexer j;
     LdapSync := LdapSync j; Migrations := Migrations j |}.

(** [if factory != nil { s.Jobs.X = factory(s.FakeApp()) }]: the statement
    acts on the job server [s.Jobs] points to; the factory sees the server
    as it is at that moment. *)
Definition attach {k} (f : option (AppRef -> JobInterface k))
    (set : JobInterface k -> JobServer -> JobServer)
    (s : Server) (j : JobServer) : JobServer :=
  match f with
  | Some mk => set (mk (FakeApp (set_Jobs j s))) j
  | None => j
  end.

(** The six checks of [initJobs], in the order of the source. *)
Definition kinds : list JobKind :=
  [KDataRetention; KMessageExport; KElasticsearchAggregator;
   KElasticsearchIndexer; KLdapSync; KMigrations].

Definition kind_index (k : JobKind) : nat :=
  match k with
  | KDataRetention => 0
  | KMessageExport => 1
  | KElasticsearchAggregator => 2
  | KElasticsearchIndexer => 3
  | KLdapSync => 4
  | KMigrations => 5
  end.

Definition set_producer (k : JobKind)
  : JobInterface k -> JobServer -> JobServer :=
  match k with
  | KDataRetention => set_DataRetentionJob
  | KMessageExport => set_MessageExportJob
  | KElasticsearchAggregator => set_ElasticsearchAggregator
  | KElasticsearchIndexer => set_ElasticsearchIndexer
  | KLdapSync => set_LdapSync
  | KMigrations => set_Migrations
  end.

(** The job server when the check of kind [k] is reached: the checks before
    it are done, those from [k] on are not. *)
Definition attached_before (k : JobKind) (s : Server) : JobServer :=
  foldl (fun j k' => attach (factory k') (set_producer k') s j)
        (NewJobServer s) (take (kind_index k) kinds).

(** The job server when all six checks are done. *)
Definition attached_all (s : Server) : JobServer :=
  foldl (fun j k' => attach (factory k') (set_producer k') s j)
        (NewJobServer s) kinds.

(** [initJobs], a method of [Server] *)
Definition initJobs (s : Server) : Server :=
  let j := NewJobServer s in
  let j := attach jobsDataRetentionJobInterface set_DataRetentionJob s j in
  let j := attach jobsMessageExportJobInterface set_MessageExportJob s j in
  let j := attach jobsElasticsearchAggregatorInterface
             set_ElasticsearchAggregator s j in
  let j := attach jobsElasticsearchIndexerInterface
             set_ElasticsearchIndexer s j in
  let j := attach jobsLdapSyncInterface set_LdapSync s j in
  let j := attach jobsMigrationsInterface set_Migrations s j in
  let j := set_Workers (InitWorkers j) j in
  let j := set_Schedulers (InitSchedulers j) j in
  set_Jobs j s.

(** *** The diagnostic id *)

Definition DiagnosticId (a : App) : string := diagnosticId (Srv a).

Definition SetDiagnosticId (id : string) (a : App) : App :=
  with_Srv (set_diagnosticId id) a.

(** [EnsureDiagnosticId]: the receiver goes in, the receiver as the call
    leaves it comes out. *)
Definition EnsureDiagnosticId (a : App) : State World App :=
  if bool_decide (diagnosticId (Srv a) ≠ EmptyString) then mret a
  else
    result ← Store_System_Get;
    match result with
    | Data props =>
        let id := index props SYSTEM_DIAGNOSTIC_ID in
        id ← (if Nat.eqb (String.length id) 0
              then
                id ← model_NewId;
                let systemId :=
                  {| Name := SYSTEM_DIAGNOSTIC_ID; Value := id |} in
                _ ← Store_System_Save systemId;
                mret id
              else mret id);
        mret (with_Srv (set_diagnosticId id) a)
    | Err _ => mret a
    end.

(** [n] calls of [EnsureDiagnosticId], one after the other. *)
Fixpoint EnsureDiagnosticId_times (n : nat) (a : App) : State World App :=
  match n with
  | O => mret a
  | Datatypes.S n => a' ← EnsureDiagnosticId a; EnsureDiagnosticId_times n a'
  end.

(** *** StartElasticsearch *)

(** [if err := a.Elasticsearch.Start(); err != nil
       { mlog.Error(err.Error()) }], and the same with [Stop]. *)
Definition call_and_log (op : EsOp) : State World unit :=
  err ← Elasticsearch_call op;
  match err with
  | Some e => mlog_Error (AppError_Error e)
  | None => mret ()
  end.

(** The closures of [StartElasticsearch], in the order of the source. *)
Definition startTask : Task := call_and_log OpStart.

Definition stopTask : Task := call_and_log OpStop.

Definition restartTask (oldConfig : Config) : Task :=
  if EnableIndexing (Elasticsearch_ oldConfig)
  then call_and_log OpStop;; call_and_log OpStart
  else mret ().

(** The closure handed to [a.AddConfigListener]. *)
Definition esConfigListener : ConfigListener :=
  fun oldConfig newConfig srv =>
    let o := Elasticsearch_ oldConfig in
    let n := Elasticsearch_ newConfig in
    if negb (EnableIndexing o) && EnableIndexing n then
      Go startTask srv
    else if EnableIndexing o && negb (EnableIndexing n) then
      Go stopTask srv
    else if bool_decide (Password o ≠ Password n)
            || bool_decide (Username o ≠ Username n)
            || bool_decide (ConnectionUrl o ≠ ConnectionUrl n)
            || bool_decide (Sniff o ≠ Sniff n) then
      Go (restartTask oldConfig) srv
    else srv.

(** The closure handed to [a.AddLicenseListener]. *)
Definition esLicenseListener : LicenseListener :=
  fun srv =>
    match License_ srv with
    | Some _ => Go startTask srv
    | None => Go stopTask srv
    end.

Definition StartElasticsearch (a : App) : App :=
  let a := with_Srv (Go startTask) a in
  let a := AddConfigListener esConfigListener a in
  AddLicenseListener esLicenseListener a.

(** *** getSystemInstallDate *)

Definition getSystemInstallDate (a : App)
  : State World (Z * option AppError) :=
  result ← Store_System_GetByName SYSTEM_INSTALLATION_DATE_KEY;
  match result with
  | Err e => mret (0%Z, Some e)
  | Data systemData =>
      let '(value, err) := strconv.ParseInt (Value systemData) in
      match err with
      | Some e =>
          mret (0%Z,
                Some (NewAppError "getSystemInstallDate"
                        "app.system_install_date.parse_int.app_error"
                        (NumError_Error e)
                        http.StatusInternalServerError))
      | None => mret (value, None)
      end
  end.

(** *** Observing a step *)

(** What [exec] of a call added to the trace. *)
Definition since (w w' : World) : list Event :=
  drop (length (trace w)) (trace w').

(** The closures a step handed to [s.Go], given the server before and after. *)
Definition dispatched (before after : Server) : list Task :=
  drop (length (goroutines before)) (goroutines after).

(** Running closures one after the other, each to completion. *)
Definition run_all (ts : list Task) (w : World) : World :=
  foldl (fun w t => exec t w) w ts.

(** The calls into the engine among the events of a trace, in order. *)
Definition calls (evs : list Event) : list EsOp :=
  omap (fun ev => match ev with EvCall op => Some op | _ => None end) evs.

(** The errors the engine returned among the events of a trace, in order. *)
Definition returned_errors (evs : list Event) : list AppError :=
  omap (fun ev => match ev with EvReturn _ (Some e) => Some e | _ => None end)
       evs.

(** The messages written to the error log among the events of a trace. *)
Definition logged (evs : list Event) : list string :=
  omap (fun ev => match ev with EvLogError m => Some m | _ => None end) evs.

(** The calls into the engine made when the closures a listener dispatched
    on [srv] are run from [w]: the action of the listener. *)
Definition action (l : Server -> Server) (srv : Server) (w : World)
  : list EsOp :=
  calls (since w (run_all (dispatched srv (l srv)) w)).

(** What one call of the engine returns, and the state it leaves. *)
Definition engine_step (op : EsOp) (e : E) : option AppError * E :=
  match op with OpStart => Start e | OpStop => Stop e end.

(** The log entry an error gives rise to. *)
Definition error_log (r : option AppError) : list Event :=
  match r with Some err => [EvLogError (AppError_Error err)] | None => [] end.

(** The events of one [call_and_log]. *)
Definition call_events (op : EsOp) (e : E) : list Event :=
  let r := fst (engine_step op e) in
  [EvCall op; EvReturn op r] ++ error_log r.

(** A closure keeps the errors of the engine to itself: run from any world
    it ends, every error the engine returned is written to the error log,
    once and in order, and the calls it makes are the same whatever the
    engine answers (a failed call is not made again). *)
Definition keeps_errors (t : Task) : Prop :=
  ∃ ops : list EsOp, ∀ w : World,
    calls (since w (exec t w)) = ops
    ∧ logged (since w (exec t w))
      = map AppError_Error (returned_errors (since w (exec t w)))
    ∧ trace (exec t w) = trace w ++ since w (exec t w)
    ∧ store (exec t w) = store w
    ∧ rand (exec t w) = rand w.

(** *** The transition table of the specification (section 4.2) *)

Inductive Action := NoAction | DoStart | DoStop | DoStopThenStart.

Definition transition (old_enabled new_enabled connection_changed : bool)
  : Action :=
  match old_enabled, new_enabled, connection_changed with
  | false, true, _ => DoStart
  | true, false, _ => DoStop
  | true, true, true => DoStopThenStart
  | true, true, false => NoAction
  | false, false, _ => NoAction
  end.

Definition ops_of (act : Action) : list EsOp :=
  match act with
  | NoAction => []
  | DoStart => [OpStart]
  | DoStop => [OpStop]
  | DoStopThenStart => [OpStop; OpStart]
  end.

(** At least one of ConnectionUrl, Username, Password, Sniff differs. *)
Definition connection_changed (old new : Config) : bool :=
  let o := Elasticsearch_ old in
  let n := Elasticsearch_ new in
  bool_decide (ConnectionUrl o ≠ ConnectionUrl n ∨ Username o ≠ Username n
               ∨ Password o ≠ Password n ∨ Sniff o ≠ Sniff n).

(** The (enabled, connection-params) delta of a pair of snapshots. *)
Definition delta (old new : Config) : bool * bool * bool :=
  (EnableIndexing (Elasticsearch_ old), EnableIndexing (Elasticsearch_ new),
   connection_changed old new).

(** *** Histories *)

(** The config listener invoked on each change of a history of snapshots:
    [c] is the configuration in force, [cs] the snapshots that replace it
    one after the other. *)
Fixpoint config_changes (c : Config) (cs : list Config) (srv : Server)
  : Server :=
  match cs with
  | [] => srv
  | c' :: rest => config_changes c' rest (esConfigListener c c' srv)
  end.

(** What the table of section 4.2 asks for along the same history. *)
Fixpoint table_calls (c : Config) (cs : list Config) : list EsOp :=
  match cs with
  | [] => []
  | c' :: rest =>
      ops_of (transition (EnableIndexing (Elasticsearch_ c))
                (EnableIndexing (Elasticsearch_ c'))
                (connection_changed c c'))
      ++ table_calls c' rest
  end.

(** [n] calls of [StartElasticsearch], one after the other. *)
Definition StartElasticsearch_times (n : nat) (a : App) : App :=
  Nat.iter n StartElasticsearch a.

(** The identifiers generated, the records handed to Save and the reads of
    the store among the events of a trace, in order. *)
Definition generated (evs : list Event) : list string :=
  omap (fun ev => match ev with EvNewId id => Some id | _ => None end) evs.

Definition saved (evs : list Event) : list System :=
  omap (fun ev => match ev with EvSystemSave sys _ => Some sys | _ => None end)
       evs.

Definition reads (evs : list Event) : list (StoreResult StringMap) :=
  omap (fun ev => match ev with EvSystemGet r => Some r | _ => None end) evs.

(** *** Proof steps used repeatedly *)

(** Closed goals are proved without the variables of the section. *)
Ltac forget_context := repeat match goal with H : _ |- _ => clear H end.

(** Open the monad down to pairs. *)
Ltac unfold_monad :=
  unfold exec, eval, mbind, mret, state_bind, state_ret.

(** Turn boolean comparisons on [Z] in the hypotheses into propositions. *)
Ltac bools_to_Z :=
  repeat match goal with
  | H : (_ && _) = true |- _ => apply andb_true_iff in H as [? ?]
  | H : (_ && _) = false |- _ => apply andb_false_iff in H as [?|?]
  | H : (_ <=? _)%Z = true |- _ => apply Z.leb_le in H
  | H : (_ <=? _)%Z = false |- _ => apply Z.leb_gt in H
  | H : (_ >=? _)%Z = true |- _ => rewrite Z.geb_leb in H
  | H : (_ >=? _)%Z = false |- _ => rewrite Z.geb_leb in H
  | H : (_ >? _)%Z = true |- _ => rewrite Z.gtb_ltb in H
  | H : (_ >? _)%Z = false |- _ => rewrite Z.gtb_ltb in H
  | H : (_ <? _)%Z = true |- _ => apply Z.ltb_lt in H
  | H : (_ <? _)%Z = false |- _ => apply Z.ltb_ge in H
  end.

(** ** Properties *)

(** *** Closures and the trace *)

Lemma exec_call_and_log (op : EsOp) (w : World) :
  exec (call_and_log op) w =
  {| store := store w; es := snd (engine_step op (es w)); rand := rand w;
     trace := trace w ++ call_events op (es w) |}.
Proof.
  unfold call_and_log, call_events, Elasticsearch_call, mlog_Error, emit.
  unfold_monad. unfold engine_step.
  destruct op; simpl.
  - destruct (Start (es w)) as [[err|] e']; simpl; [|done].
    by rewrite <- app_assoc.
  - destruct (Stop (es w)) as [[err|] e']; simpl; [|done].
    by rewrite <- app_assoc.
Qed.

Lemma since_app (w w' : World) (evs : list Event) :
  trace w' = trace w ++ evs -> since w w' = evs.
Proof. intros H. unfold since. rewrite H. apply drop_app_length. Qed.

Lemma dispatched_Go (srv : Server) (t : Task) :
  dispatched srv (Go t srv) = [t].
Proof. unfold dispatched, Go. simpl. apply drop_app_length. Qed.

Lemma dispatched_same (srv : Server) : dispatched srv srv = [].
Proof. unfold dispatched. apply drop_all. Qed.

Lemma calls_call_events (op : EsOp) (e : E) :
  calls (call_events op e) = [op].
Proof.
  unfold call_events. destruct (fst (engine_step op e)); reflexivity.
Qed.

Lemma logged_call_events (op : EsOp) (e : E) :
  logged (call_events op e)
  = map AppError_Error (returned_errors (call_events op e)).
Proof.
  unfold call_events. destruct (fst (engine_step op e)); reflexivity.
Qed.

(** What the three closures do, as events. *)
Lemma trace_startTask (w : World) :
  trace (exec startTask w) = trace w ++ call_events OpStart (es w).
Proof. unfold startTask. by rewrite exec_call_and_log. Qed.

Lemma trace_stopTask (w : World) :
  trace (exec stopTask w) = trace w ++ call_events OpStop (es w).
Proof. unfold stopTask. by rewrite exec_call_and_log. Qed.

Lemma exec_seq (m k : State World unit) (w : World) :
  exec (m;; k) w = exec k (exec m w).
Proof. unfold_monad. by destruct (m w). Qed.

Lemma trace_restartTask (old : Config) (w : World) :
  trace (exec (restartTask old) w) =
  trace w ++
  (if EnableIndexing (Elasticsearch_ old)
   then call_events OpStop (es w)
        ++ call_events OpStart (snd (engine_step OpStop (es w)))
   else []).
Proof.
  unfold restartTask. destruct (EnableIndexing (Elasticsearch_ old)).
  - rewrite exec_seq, !exec_call_and_log. simpl. by rewrite <- app_assoc.
  - unfold_monad. simpl. by rewrite app_nil_r.
Qed.

(** *** The config listener *)

Lemma changed_as_in_source (old new : Config) :
  let o := Elasticsearch_ old in
  let n := Elasticsearch_ new in
  bool_decide (Password o ≠ Password n)
  || bool_decide (Username o ≠ Username n)
  || bool_decide (ConnectionUrl o ≠ ConnectionUrl n)
  || bool_decide (Sniff o ≠ Sniff n)
  = connection_changed old new.
Proof.
  simpl. unfold connection_changed.
  repeat case_bool_decide; simpl; try reflexivity; exfalso; tauto.
Qed.

(** The listener, branch by branch, in terms of the delta. *)
Lemma esConfigListener_by_delta (old new : Config) (srv : Server) :
  esConfigListener old new srv =
  match delta old new with
  | (false, true, _) => Go startTask srv
  | (true, false, _) => Go stopTask srv
  | (true, true, true) =>
      Go (call_and_log OpStop;; call_and_log OpStart) srv
  | (false, false, true) => Go (mret ()) srv
  | (_, _, false) => srv
  end.
Proof.
  unfold esConfigListener, delta.
  rewrite changed_as_in_source. unfold restartTask.
  destruct (EnableIndexing (Elasticsearch_ old)),
    (EnableIndexing (Elasticsearch_ new)),
    (connection_changed old new); reflexivity.
Qed.

(** What the listener hands to [Go], with the closures as the source has
    them. *)
Lemma dispatched_config_listener (old new : Config) (srv : Server) :
  dispatched srv (esConfigListener old new srv) =
  match delta old new with
  | (false, true, _) => [startTask]
  | (true, false, _) => [stopTask]
  | (_, _, true) => [restartTask old]
  | (_, _, false) => []
  end.
Proof.
  unfold esConfigListener, delta. rewrite changed_as_in_source.
  destruct (EnableIndexing (Elasticsearch_ old)),
    (EnableIndexing (Elasticsearch_ new)),
    (connection_changed old new); simpl;
    first [apply dispatched_Go | apply dispatched_same].
Qed.

(** With indexing disabled in both snapshots and a connection parameter
    changed, the closure handed to [Go] finds its guard false and does
    nothing. *)
Lemma both_disabled_dispatches_an_idle_closure
    (old new : Config) (srv : Server) (w : World) :
  EnableIndexing (Elasticsearch_ old) = false ->
  EnableIndexing (Elasticsearch_ new) = false ->
  connection_changed old new = true ->
  dispatched srv (esConfigListener old new srv) = [restartTask old]
  ∧ exec (restartTask old) w = w.
Proof.
  intros Ho Hn Hc. split.
  - rewrite dispatched_config_listener. unfold delta. by rewrite Ho, Hn, Hc.
  - unfold restartTask. rewrite Ho. reflexivity.
Qed.

Lemma action_Go (l : Server -> Server) (t : Task) (srv : Server) (w : World)
    (evs : list Event) :
  l srv = Go t srv ->
  trace (exec t w) = trace w ++ evs ->
  action l srv w = calls evs.
Proof.
  intros Hl Ht. unfold action. rewrite Hl, dispatched_Go. simpl.
  by rewrite (since_app _ _ evs).
Qed.

Lemma action_none (l : Server -> Server) (srv : Server) (w : World) :
  l srv = srv -> action l srv w = [].
Proof.
  intros Hl. unfold action. rewrite Hl, dispatched_same. simpl.
  unfold since. by rewrite drop_all.
Qed.

Lemma action_config_listener (old new : Config) (srv : Server) (w : World) :
  action (esConfigListener old new) srv w =
  ops_of (transition (EnableIndexing (Elasticsearch_ old))
            (EnableIndexing (Elasticsearch_ new))
            (connection_changed old new)).
Proof.
  pose proof (esConfigListener_by_delta old new srv) as Hl.
  unfold delta in Hl.
  destruct (EnableIndexing (Elasticsearch_ old)),
    (EnableIndexing (Elasticsearch_ new)),
    (connection_changed old new); simpl.
  - erewrite action_Go; [| exact Hl |].
    2:{ rewrite exec_seq, !exec_call_and_log. simpl.
        rewrite <- app_assoc. reflexivity. }
    unfold calls. rewrite omap_app. fold calls.
    by rewrite !calls_call_events.
  - by apply action_none.
  - erewrite action_Go; [| exact Hl | apply trace_stopTask].
    apply calls_call_events.
  - erewrite action_Go; [| exact Hl | apply trace_stopTask].
    apply calls_call_events.
  - erewrite action_Go; [| exact Hl | apply trace_startTask].
    apply calls_call_events.
  - erewrite action_Go; [| exact Hl | apply trace_startTask].
    apply calls_call_events.
  - erewrite action_Go; [| exact Hl |].
    2:{ unfold_monad. simpl. symmetry. apply app_nil_r. }
    reflexivity.
  - by apply action_none.
Qed.

Lemma esConfigListener_appends (old new : Config) (srv : Server) :
  esConfigListener old new srv = srv
  ∨ ∃ t, esConfigListener old new srv = Go t srv
         ∧ ∀ srv', esConfigListener old new srv' = Go t srv'.
Proof.
  destruct (delta old new) as [[oe ne] ch] eqn:Hd.
  destruct oe, ne, ch;
    first [ left; rewrite esConfigListener_by_delta, Hd; reflexivity
          | right; eexists; split;
            [ rewrite esConfigListener_by_delta, Hd; reflexivity
            | intros; rewrite esConfigListener_by_delta, Hd; reflexivity ] ].
Qed.

(** C1. For every pair (old, new) the config listener registered by
    StartElasticsearch chooses what to dispatch from the pair alone and
    follows the transition table of section 4.2: the calls made into the
    engine by what it dispatched are Start exactly when indexing goes from
    disabled to enabled, Stop exactly when it goes from enabled to disabled,
    Stop then Start exactly when it stays enabled and a connection parameter
    (ConnectionUrl, Username, Password, Sniff) differs, and none in every
    other case, in particular when indexing is disabled in both snapshots
    whatever the connection parameters do. Two pairs with the same
    (enabled, connection-params) delta make the listener do the same. *)
Theorem config_listener_follows_transition_table
    (old new : Config) (srv : Server) (w : World) :
  let oe := EnableIndexing (Elasticsearch_ old) in
  let ne := EnableIndexing (Elasticsearch_ new) in
  let ch := connection_changed old new in
  let act := action (esConfigListener old new) srv w in
  goroutines (esConfigListener old new srv)
    = goroutines srv ++ dispatched srv (esConfigListener old new srv)
  ∧ (∀ srv', dispatched srv' (esConfigListener old new srv')
             = dispatched srv (esConfigListener old new srv))
  ∧ act = ops_of (transition oe ne ch)
  ∧ (act = [OpStart] ↔ oe = false ∧ ne = true)
  ∧ (act = [OpStop] ↔ oe = true ∧ ne = false)
  ∧ (act = [OpStop; OpStart] ↔ oe = true ∧ ne = true ∧ ch = true)
  ∧ (act = [] ↔ ¬ (oe = false ∧ ne = true) ∧ ¬ (oe = true ∧ ne = false)
                ∧ ¬ (oe = true ∧ ne = true ∧ ch = true))
  ∧ (oe = false → ne = false →
     act = []
     ∧ run_all (dispatched srv (esConfigListener old new srv)) w = w)
  ∧ (∀ old' new', delta old' new' = delta old new →
       esConfigListener old' new' srv = esConfigListener old new srv).
Proof.
  intros oe ne ch act.
  assert (Hact : act = ops_of (transition oe ne ch))
    by apply action_config_listener.
  split.
  { destruct (esConfigListener_appends old new srv) as [-> | (t & -> & _)].
    - by rewrite dispatched_same, app_nil_r.
    - by rewrite dispatched_Go. }
  split.
  { intros srv'.
    destruct (esConfigListener_appends old new srv) as [Hs | (t & Hs & Hall)].
    - pose proof (esConfigListener_by_delta old new srv) as H1.
      pose proof (esConfigListener_by_delta old new srv') as H2.
      rewrite Hs, dispatched_same.
      destruct (delta old new) as [[[] []] []];
        try (rewrite H2; apply dispatched_same);
        exfalso; rewrite Hs in H1;
        apply (f_equal (fun s => length (goroutines s))) in H1;
        simpl in H1; rewrite length_app in H1; simpl in H1; lia.
    - by rewrite Hall, Hs, !dispatched_Go. }
  split; [exact Hact|].
  assert (Hcases : ∀ P : list EsOp → bool → bool → bool → Prop,
             (∀ o n c, P (ops_of (transition o n c)) o n c) → P act oe ne ch).
  { intros P HP. rewrite Hact. apply HP. }
  split; [| split; [| split; [| split; [| split]]]].
  - apply (Hcases (fun a o n c => a = [OpStart] ↔ o = false ∧ n = true)).
    forget_context; intros [] [] []; simpl; intuition congruence.
  - apply (Hcases (fun a o n c => a = [OpStop] ↔ o = true ∧ n = false)).
    forget_context; intros [] [] []; simpl; intuition congruence.
  - apply (Hcases (fun a o n c =>
                     a = [OpStop; OpStart] ↔ o = true ∧ n = true ∧ c = true)).
    forget_context; intros [] [] []; simpl; intuition congruence.
  - apply (Hcases (fun a o n c =>
                     a = [] ↔ ¬ (o = false ∧ n = true)
                              ∧ ¬ (o = true ∧ n = false)
                              ∧ ¬ (o = true ∧ n = true ∧ c = true))).
    forget_context; intros [] [] []; simpl; intuition congruence.
  - intros Ho Hn. split.
    { rewrite Hact, Ho, Hn. reflexivity. }
    pose proof (esConfigListener_by_delta old new srv) as Hl.
    unfold delta in Hl. fold oe ne ch in Hl. rewrite Ho, Hn in Hl.
    destruct ch; rewrite Hl.
    + rewrite dispatched_Go. simpl. unfold_monad. reflexivity.
    + by rewrite dispatched_same.
  - intros old' new' Hd.
    by rewrite !esConfigListener_by_delta, Hd.
Qed.

(** C2. When a configuration change keeps indexing enabled and changes a
    connection parameter, the listener dispatches exactly one closure, once,
    and that closure calls Stop and then Start: Stop is entered and has
    returned before Start is entered, and Start runs on the engine as Stop
    left it. *)
Theorem connection_change_stops_then_starts_in_one_task
    (old new : Config) (srv : Server) :
  EnableIndexing (Elasticsearch_ old) = true ->
  EnableIndexing (Elasticsearch_ new) = true ->
  connection_changed old new = true ->
  dispatched srv (esConfigListener old new srv) = [restartTask old]
  ∧ ∀ w : World,
      let r1 := fst (Stop (es w)) in
      let e1 := snd (Stop (es w)) in
      let r2 := fst (Start e1) in
      let e2 := snd (Start e1) in
      trace (exec (restartTask old) w)
      = trace w ++ [EvCall OpStop; EvReturn OpStop r1] ++ error_log r1
                ++ [EvCall OpStart; EvReturn OpStart r2] ++ error_log r2
      ∧ es (exec (restartTask old) w) = e2
      ∧ calls (since w (exec (restartTask old) w)) = [OpStop; OpStart].
Proof.
  intros Ho Hn Hc. split.
  - rewrite dispatched_config_listener. unfold delta. by rewrite Ho, Hn, Hc.
  - intros w. simpl.
    pose proof (trace_restartTask old w) as Ht. rewrite Ho in Ht.
    split; [| split].
    + rewrite Ht. unfold call_events. reflexivity.
    + unfold restartTask. rewrite Ho, exec_seq, !exec_call_and_log.
      reflexivity.
    + rewrite (since_app _ _ _ Ht). unfold calls. rewrite omap_app.
      fold calls. by rewrite !calls_call_events.
Qed.

(** *** The license listener *)

Lemma action_license_listener (srv : Server) (w : World) :
  action esLicenseListener srv w
  = match licenseValue srv with Some _ => [OpStart] | None => [OpStop] end.
Proof.
  destruct (licenseValue srv) eqn:Hl.
  - erewrite action_Go; [apply calls_call_events | | apply trace_startTask].
    unfold esLicenseListener, License_. by rewrite Hl.
  - erewrite action_Go; [apply calls_call_events | | apply trace_stopTask].
    unfold esLicenseListener, License_. by rewrite Hl.
Qed.

(** C3. On every invocation the license listener registered by
    StartElasticsearch dispatches one closure: the one that calls Start when
    the current license is non-nil, the one that calls Stop when it is nil.
    It never dispatches both, and which one it dispatches depends on nothing
    but the presence of the license. *)
Theorem license_listener_starts_or_stops (srv : Server) (w : World) :
  let act := action esLicenseListener srv w in
  (licenseValue srv ≠ None →
   dispatched srv (esLicenseListener srv) = [startTask] ∧ act = [OpStart])
  ∧ (licenseValue srv = None →
     dispatched srv (esLicenseListener srv) = [stopTask] ∧ act = [OpStop])
  ∧ length (dispatched srv (esLicenseListener srv)) = 1
  ∧ (act = [OpStart] ↔ licenseValue srv ≠ None)
  ∧ (act = [OpStop] ↔ licenseValue srv = None)
  ∧ (∀ srv' : Server,
       (licenseValue srv' = None ↔ licenseValue srv = None) →
       dispatched srv' (esLicenseListener srv')
       = dispatched srv (esLicenseListener srv)).
Proof.
  intros act.
  assert (Hact := action_license_listener srv w). fold act in Hact.
  assert (Hd : ∀ s, dispatched s (esLicenseListener s)
                    = match licenseValue s with
                      | Some _ => [startTask]
                      | None => [stopTask]
                      end).
  { intros s. unfold esLicenseListener, License_.
    destruct (licenseValue s); apply dispatched_Go. }
  rewrite Hact, Hd. repeat split.
  all: try (destruct (licenseValue srv); simpl; congruence).
  - intros srv' Hiff. rewrite Hd.
    destruct (licenseValue srv), (licenseValue srv'); try reflexivity.
    + destruct Hiff as [H _]. by specialize (H eq_refl).
    + destruct Hiff as [_ H]. by specialize (H eq_refl).
Qed.

(** *** Errors of the engine *)

Lemma keeps_errors_call (op : EsOp) : keeps_errors (call_and_log op).
Proof.
  exists [op]. intros w.
  assert (Ht : trace (exec (call_and_log op) w)
               = trace w ++ call_events op (es w))
    by by rewrite exec_call_and_log.
  rewrite (since_app _ _ _ Ht).
  split; [apply calls_call_events|].
  split; [apply logged_call_events|].
  split; [exact Ht|].
  by rewrite exec_call_and_log.
Qed.

Lemma keeps_errors_skip : keeps_errors (mret ()).
Proof.
  exists []. intros w. unfold_monad. simpl.
  unfold since. rewrite drop_all. simpl. by rewrite app_nil_r.
Qed.

Lemma keeps_errors_seq (t1 t2 : Task) :
  keeps_errors t1 -> keeps_errors t2 -> keeps_errors (t1;; t2).
Proof.
  intros [ops1 H1] [ops2 H2]. exists (ops1 ++ ops2). intros w.
  rewrite exec_seq.
  destruct (H1 w) as (Hc1 & Hl1 & Ht1 & Hs1 & Hr1).
  destruct (H2 (exec t1 w)) as (Hc2 & Hl2 & Ht2 & Hs2 & Hr2).
  assert (Ht : trace (exec t2 (exec t1 w))
               = trace w ++ since w (exec t1 w)
                 ++ since (exec t1 w) (exec t2 (exec t1 w))).
  { rewrite Ht2 at 1. rewrite Ht1 at 1. by rewrite <- app_assoc. }
  rewrite (since_app _ _ _ Ht).
  unfold calls, logged, returned_errors in *.
  rewrite !omap_app, map_app, Hc1, Hc2, Hl1, Hl2.
  repeat split; try done; congruence.
Qed.

Lemma keeps_errors_restart (old : Config) : keeps_errors (restartTask old).
Proof.
  unfold restartTask. destruct (EnableIndexing (Elasticsearch_ old)).
  - apply keeps_errors_seq; apply keeps_errors_call.
  - apply keeps_errors_skip.
Qed.

(** C8. Every closure dispatched by StartElasticsearch, by its config
    listener or by its license listener keeps the errors of Start and Stop
    to itself: each error is written to the error log inside the closure, the
    closure makes the same calls whether they fail or not (nothing is
    retried), and the listeners themselves only record closures: they give
    no error back and leave the rest of the server as it was. *)
Theorem engine_errors_are_logged_in_the_task :
  (∀ a : App,
     Forall keeps_errors (dispatched (Srv a) (Srv (StartElasticsearch a))))
  ∧ (∀ (old new : Config) (srv : Server),
       let srv' := esConfigListener old new srv in
       Forall keeps_errors (dispatched srv srv')
       ∧ goroutines srv' = goroutines srv ++ dispatched srv srv'
       ∧ Jobs srv' = Jobs srv ∧ diagnosticId srv' = diagnosticId srv
       ∧ config srv' = config srv ∧ licenseValue srv' = licenseValue srv)
  ∧ (∀ srv : Server,
       let srv' := esLicenseListener srv in
       Forall keeps_errors (dispatched srv srv')
       ∧ goroutines srv' = goroutines srv ++ dispatched srv srv'
       ∧ Jobs srv' = Jobs srv ∧ diagnosticId srv' = diagnosticId srv
       ∧ config srv' = config srv ∧ licenseValue srv' = licenseValue srv).
Proof.
  split; [| split].
  - intros a. unfold StartElasticsearch. simpl. rewrite dispatched_Go.
    repeat constructor. apply keeps_errors_call.
  - intros old new srv. simpl. split.
    { rewrite dispatched_config_listener.
      destruct (delta old new) as [[[] []] []]; repeat constructor;
        first [apply keeps_errors_call | apply keeps_errors_restart]. }
    rewrite esConfigListener_by_delta.
    destruct (delta old new) as [[[] []] []]; simpl;
      rewrite ?dispatched_Go, ?dispatched_same, ?app_nil_r; repeat split.
  - intros srv. simpl. unfold esLicenseListener, License_.
    destruct (licenseValue srv) eqn:Hl; rewrite dispatched_Go;
      simpl; rewrite ?Hl; repeat split; repeat constructor;
      apply keeps_errors_call.
Qed.

(** *** StartElasticsearch itself *)

(** C9. Calling StartElasticsearch dispatches one closure that calls Start,
    whatever the current configuration and license are, and then registers
    the config listener and the license listener; the dispatch is made on
    the application as it was handed in, with no listener of this call
    registered yet. The table of section 4.2 asks for no action on a
    configuration that did not change. *)
Theorem StartElasticsearch_dispatches_an_initial_start (a : App) (w : World) :
  let a' := StartElasticsearch a in
  a' = AddLicenseListener esLicenseListener
         (AddConfigListener esConfigListener (with_Srv (Go startTask) a))
  ∧ configListeners (with_Srv (Go startTask) a) = configListeners a
  ∧ licenseListeners (with_Srv (Go startTask) a) = licenseListeners a
  ∧ goroutines (Srv a') = goroutines (Srv a) ++ [startTask]
  ∧ dispatched (Srv a) (Srv a') = [startTask]
  ∧ calls (since w (run_all (dispatched (Srv a) (Srv a')) w)) = [OpStart]
  ∧ configListeners a' = configListeners a ++ [esConfigListener]
  ∧ licenseListeners a' = licenseListeners a ++ [esLicenseListener]
  ∧ config (Srv a') = config (Srv a)
  ∧ licenseValue (Srv a') = licenseValue (Srv a)
  ∧ action (esConfigListener (config (Srv a)) (config (Srv a))) (Srv a) w = [].
Proof.
  simpl. do 4 (split; [reflexivity|]).
  rewrite dispatched_Go. split; [reflexivity|]. simpl.
  split.
  { rewrite (since_app _ _ _ (trace_startTask w)). apply calls_call_events. }
  repeat split.
  rewrite action_config_listener.
  assert (Hc : connection_changed (config (Srv a)) (config (Srv a)) = false).
  { unfold connection_changed. apply bool_decide_eq_false. tauto. }
  rewrite Hc. by destruct (EnableIndexing _).
Qed.

(** *** The diagnostic id *)

Lemma length_zero_iff_empty (s : string) :
  Nat.eqb (String.length s) 0 = true ↔ s = EmptyString.
Proof. destruct s; simpl; split; intros H; congruence. Qed.

Lemma index_empty_iff (m : StringMap) (k : string) :
  index m k = EmptyString ↔ m !! k = None ∨ m !! k = Some EmptyString.
Proof.
  unfold index. destruct (m !! k) as [v|]; simpl.
  - split; [intros ->; by right | intros [H|H]; congruence].
  - split; [by left | done].
Qed.

(** Fast path: the id is cached. *)
Lemma EnsureDiagnosticId_cached (a : App) (w : World) :
  DiagnosticId a ≠ EmptyString -> EnsureDiagnosticId a w = (a, w).
Proof.
  intros Hne. unfold EnsureDiagnosticId, DiagnosticId in *.
  by rewrite bool_decide_eq_true_2.
Qed.

(** The read fails. *)
Lemma EnsureDiagnosticId_read_failed (a : App) (w : World) e s' :
  DiagnosticId a = EmptyString ->
  SystemGet (store w) = (Err e, s') ->
  EnsureDiagnosticId a w
  = (a, {| store := s'; es := es w; rand := rand w;
           trace := trace w ++ [EvSystemGet (Err e)] |}).
Proof.
  intros He Hget. unfold EnsureDiagnosticId, DiagnosticId in *.
  rewrite bool_decide_eq_false_2 by (rewrite He; intros Hx; by apply Hx).
  unfold Store_System_Get. unfold_monad. by rewrite Hget.
Qed.

(** The read delivers a non-empty value. *)
Lemma EnsureDiagnosticId_found (a : App) (w : World) m s' :
  DiagnosticId a = EmptyString ->
  SystemGet (store w) = (Data m, s') ->
  index m SYSTEM_DIAGNOSTIC_ID ≠ EmptyString ->
  EnsureDiagnosticId a w
  = (SetDiagnosticId (index m SYSTEM_DIAGNOSTIC_ID) a,
     {| store := s'; es := es w; rand := rand w;
        trace := trace w ++ [EvSystemGet (Data m)] |}).
Proof.
  intros He Hget Hid. unfold EnsureDiagnosticId, DiagnosticId in *.
  rewrite bool_decide_eq_false_2 by (rewrite He; intros Hx; by apply Hx).
  unfold Store_System_Get. unfold_monad. rewrite Hget.
  destruct (Nat.eqb (String.length (index m SYSTEM_DIAGNOSTIC_ID)) 0) eqn:Hl.
  - apply length_zero_iff_empty in Hl. contradiction.
  - reflexivity.
Qed.

(** The read delivers no value or an empty one. *)
Lemma EnsureDiagnosticId_generated (a : App) (w : World) m s' id g' r s'' :
  DiagnosticId a = EmptyString ->
  SystemGet (store w) = (Data m, s') ->
  index m SYSTEM_DIAGNOSTIC_ID = EmptyString ->
  NewId (rand w) = (id, g') ->
  SystemSave {| Name := SYSTEM_DIAGNOSTIC_ID; Value := id |} s' = (r, s'') ->
  EnsureDiagnosticId a w
  = (SetDiagnosticId id a,
     {| store := s''; es := es w; rand := g';
        trace := trace w
          ++ [EvSystemGet (Data m); EvNewId id;
              EvSystemSave {| Name := SYSTEM_DIAGNOSTIC_ID; Value := id |} r]
     |}).
Proof.
  intros He Hget Hid Hnew Hsave. unfold EnsureDiagnosticId, DiagnosticId in *.
  rewrite bool_decide_eq_false_2 by (rewrite He; intros Hx; by apply Hx).
  unfold Store_System_Get, model_NewId, Store_System_Save. unfold_monad.
  rewrite Hget, Hid. simpl. rewrite Hnew. simpl. rewrite Hsave.
  by rewrite <- !app_assoc.
Qed.

(** C4. EnsureDiagnosticId, from every starting state: (1) when the
    in-memory id is non-empty it returns at once, with no store call and no
    change of state; (2) when it is empty and the read succeeds with a
    non-empty value under the diagnostic-id key, that value is cached after
    the one read; (3) when the read succeeds and the value is absent or
    empty, one identifier is generated, one Save of it under the key is
    issued, and it is cached; (4) when the read fails nothing is cached, the
    in-memory id stays empty, and the next call reads the store again. *)
Theorem EnsureDiagnosticId_behaviour (a : App) (w : World) :
  let a' := eval (EnsureDiagnosticId a) w in
  let w' := exec (EnsureDiagnosticId a) w in
  let key := SYSTEM_DIAGNOSTIC_ID in
  (DiagnosticId a ≠ EmptyString → a' = a ∧ w' = w)
  ∧ (∀ m s',
       DiagnosticId a = EmptyString →
       SystemGet (store w) = (Data m, s') →
       index m key ≠ EmptyString →
       DiagnosticId a' = index m key
       ∧ a' = SetDiagnosticId (index m key) a
       ∧ trace w' = trace w ++ [EvSystemGet (Data m)]
       ∧ store w' = s' ∧ rand w' = rand w ∧ es w' = es w)
  ∧ (∀ m s' id g' r s'',
       DiagnosticId a = EmptyString →
       SystemGet (store w) = (Data m, s') →
       m !! key = None ∨ m !! key = Some EmptyString →
       NewId (rand w) = (id, g') →
       SystemSave {| Name := key; Value := id |} s' = (r, s'') →
       DiagnosticId a' = id
       ∧ a' = SetDiagnosticId id a
       ∧ trace w' = trace w ++ [EvSystemGet (Data m); EvNewId id;
                                EvSystemSave {| Name := key; Value := id |} r]
       ∧ store w' = s'' ∧ rand w' = g' ∧ es w' = es w)
  ∧ (∀ e s',
       DiagnosticId a = EmptyString →
       SystemGet (store w) = (Err e, s') →
       a' = a ∧ DiagnosticId a' = EmptyString
       ∧ trace w' = trace w ++ [EvSystemGet (Err e)]
       ∧ store w' = s' ∧ rand w' = rand w ∧ es w' = es w
       ∧ ∃ r evs, since w' (exec (EnsureDiagnosticId a') w')
                  = EvSystemGet r :: evs).
Proof.
  unfold eval, exec. simpl.
  split; [| split; [| split]].
  - intros Hne. by rewrite EnsureDiagnosticId_cached.
  - intros m s' He Hget Hid.
    by rewrite (EnsureDiagnosticId_found _ _ _ _ He Hget Hid).
  - intros m s' id g' r s'' He Hget Hid Hnew Hsave.
    apply index_empty_iff in Hid.
    by rewrite (EnsureDiagnosticId_generated _ _ _ _ _ _ _ _
                  He Hget Hid Hnew Hsave).
  - intros e s' He Hget.
    rewrite (EnsureDiagnosticId_read_failed _ _ _ _ He Hget). simpl.
    repeat split; try done.
    set (w1 := {| store := s'; es := es w; rand := rand w;
                  trace := trace w ++ [EvSystemGet (Err e)] |}).
    destruct (SystemGet (store w1)) as [[m2|e2] s2] eqn:Hget2.
    + destruct (NewId (rand w1)) as [id g2] eqn:Hnew.
      destruct (SystemSave {| Name := SYSTEM_DIAGNOSTIC_ID; Value := id |} s2)
        as [r s3] eqn:Hsave.
      destruct (decide (index m2 SYSTEM_DIAGNOSTIC_ID = EmptyString)) as [Hi|Hi].
      * rewrite (EnsureDiagnosticId_generated _ _ _ _ _ _ _ _
                   He Hget2 Hi Hnew Hsave). simpl.
        unfold since. simpl. rewrite drop_app_length. eauto.
      * rewrite (EnsureDiagnosticId_found _ _ _ _ He Hget2 Hi). simpl.
        unfold since. simpl. rewrite drop_app_length. eauto.
    + rewrite (EnsureDiagnosticId_read_failed _ _ _ _ He Hget2). simpl.
      unfold since. simpl. rewrite drop_app_length. eauto.
Qed.

Lemma EnsureDiagnosticId_times_cached (n : nat) (a : App) (w : World) :
  DiagnosticId a ≠ EmptyString -> EnsureDiagnosticId_times n a w = (a, w).
Proof.
  intros Hne. induction n as [|n IH]; simpl; [reflexivity|].
  unfold_monad. by rewrite EnsureDiagnosticId_cached.
Qed.

(** C5. Once the in-memory diagnostic id is non-empty, any number of
    further EnsureDiagnosticId calls leave the whole state as it was: no
    read, no write, no generation, and the cached value is the same. *)
Theorem EnsureDiagnosticId_is_stable_once_cached
    (n : nat) (a : App) (w : World) :
  DiagnosticId a ≠ EmptyString ->
  let a' := eval (EnsureDiagnosticId_times n a) w in
  let w' := exec (EnsureDiagnosticId_times n a) w in
  DiagnosticId a' = DiagnosticId a
  ∧ a' = a ∧ w' = w
  ∧ since w w' = []
  ∧ store w' = store w ∧ rand w' = rand w.
Proof.
  intros Hne. unfold eval, exec. simpl.
  rewrite (EnsureDiagnosticId_times_cached n a w Hne). simpl.
  repeat split. unfold since. apply drop_all.
Qed.

(** C10. When EnsureDiagnosticId generates an identifier and the Save of it
    fails, the failure is dropped: the identifier is cached all the same,
    the error is neither logged nor handed to anyone, and the store is left
    as the failed Save left it. *)
Theorem EnsureDiagnosticId_ignores_a_failed_save
    (a : App) (w : World) m s' id g' e s'' :
  DiagnosticId a = EmptyString ->
  SystemGet (store w) = (Data m, s') ->
  index m SYSTEM_DIAGNOSTIC_ID = EmptyString ->
  NewId (rand w) = (id, g') ->
  SystemSave {| Name := SYSTEM_DIAGNOSTIC_ID; Value := id |} s'
    = (Some e, s'') ->
  let a' := eval (EnsureDiagnosticId a) w in
  let w' := exec (EnsureDiagnosticId a) w in
  DiagnosticId a' = id
  ∧ store w' = s''
  ∧ since w w'
    = [EvSystemGet (Data m); EvNewId id;
       EvSystemSave {| Name := SYSTEM_DIAGNOSTIC_ID; Value := id |} (Some e)]
  ∧ logged (since w w') = [].
Proof.
  intros He Hget Hid Hnew Hsave. unfold eval, exec. simpl.
  rewrite (EnsureDiagnosticId_generated _ _ _ _ _ _ _ _
             He Hget Hid Hnew Hsave). simpl.
  unfold since. simpl. rewrite drop_app_length. by repeat split.
Qed.

(** *** The job server *)

Lemma initJobs_unfold (s : Server) :
  initJobs s =
  let j := attached_all s in
  let jw := set_Workers (InitWorkers j) j in
  set_Jobs (set_Schedulers (InitSchedulers jw) jw) s.
Proof. reflexivity. Qed.

Lemma producer_attached_all (k : JobKind) (s : Server) :
  producer k (attached_all s) =
  match factory k with
  | Some mk => Some (mk (FakeApp (set_Jobs (attached_before k s) s)))
  | None => producer k (NewJobServer s)
  end.
Proof.
  unfold attached_all, attached_before, kinds, attach.
  destruct k; simpl;
    destruct jobsDataRetentionJobInterface, jobsMessageExportJobInterface,
      jobsElasticsearchAggregatorInterface, jobsElasticsearchIndexerInterface,
      jobsLdapSyncInterface, jobsMigrationsInterface; reflexivity.
Qed.

Lemma collections_attached_all (s : Server) :
  JS_Workers (attached_all s) = JS_Workers (NewJobServer s)
  ∧ JS_Schedulers (attached_all s) = JS_Schedulers (NewJobServer s).
Proof.
  unfold attached_all, kinds, attach. simpl.
  destruct jobsDataRetentionJobInterface, jobsMessageExportJobInterface,
    jobsElasticsearchAggregatorInterface, jobsElasticsearchIndexerInterface,
    jobsLdapSyncInterface, jobsMigrationsInterface; split; reflexivity.
Qed.

(** C6. initJobs builds the job server and makes the six presence checks in
    turn: the slot of a kind holds what its factory returned exactly when
    the factory is present, and is left as the new job server had it when the
    factory is absent (nothing is attached, nothing fails). Only then are the
    workers computed from the job server with its six slots settled, and
    after them the schedulers. *)
Theorem initJobs_attaches_the_present_factories (s : Server) :
  ∃ j jw jobs : JobServer,
    Jobs (initJobs s) = Some jobs
    ∧ (∀ k, producer k j =
            match factory k with
            | Some mk => Some (mk (FakeApp (set_Jobs (attached_before k s) s)))
            | None => producer k (NewJobServer s)
            end)
    ∧ JS_Workers j = JS_Workers (NewJobServer s)
    ∧ JS_Schedulers j = JS_Schedulers (NewJobServer s)
    ∧ ((∀ k, factory k = None) → j = NewJobServer s)
    ∧ ((∀ k, producer k (NewJobServer s) = None) →
       ∀ k, producer k j = None ↔ factory k = None)
    ∧ jw = set_Workers (InitWorkers j) j
    ∧ jobs = set_Schedulers (InitSchedulers jw) jw
    ∧ JS_Workers jobs = Some (InitWorkers j)
    ∧ JS_Schedulers jobs = Some (InitSchedulers jw)
    ∧ (∀ k, producer k jobs = producer k j)
    ∧ diagnosticId (initJobs s) = diagnosticId s
    ∧ config (initJobs s) = config s
    ∧ licenseValue (initJobs s) = licenseValue s
    ∧ goroutines (initJobs s) = goroutines s.
Proof.
  exists (attached_all s).
  exists (set_Workers (InitWorkers (attached_all s)) (attached_all s)).
  eexists. rewrite initJobs_unfold. simpl.
  split; [reflexivity|].
  split; [intros k; apply producer_attached_all|].
  split; [apply collections_attached_all|].
  split; [apply collections_attached_all|].
  split.
  { intros Hnone. unfold attached_all, kinds, attach. simpl.
    pose proof (Hnone KDataRetention) as H1.
    pose proof (Hnone KMessageExport) as H2.
    pose proof (Hnone KElasticsearchAggregator) as H3.
    pose proof (Hnone KElasticsearchIndexer) as H4.
    pose proof (Hnone KLdapSync) as H5.
    pose proof (Hnone KMigrations) as H6.
    simpl in *. by rewrite H1, H2, H3, H4, H5, H6. }
  split.
  { intros Hnil k. rewrite producer_attached_all, Hnil.
    destruct (factory k); split; congruence. }
  repeat split.
Qed.

(** *** strconv.ParseInt against the decimal notation *)

Section ParseIntFacts.

Import strconv.
Local Open Scope Z_scope.

Lemma digit_value_digit (ch : ascii) :
  is_digit ch = true ->
  digit_value (byte ch) = Some (byte ch - 48) /\ 0 <= byte ch - 48 < 10.
Proof.
  unfold is_digit, digit_value.
  change (byte "0") with 48. change (byte "9") with 57.
  intros H. rewrite H. split; [reflexivity|].
  apply andb_true_iff in H. lia.
Qed.

Lemma digit_value_other (ch : ascii) :
  is_digit ch = false ->
  match digit_value (byte ch) with
  | Some d => 10 <= d
  | None => True
  end.
Proof.
  unfold is_digit, digit_value.
  change (byte "0") with 48. change (byte "9") with 57.
  change (byte "a") with 97. change (byte "z") with 122.
  change (byte "A") with 65. change (byte "Z") with 90.
  intros H. rewrite H.
  destruct ((97 <=? byte ch) && (byte ch <=? 122)) eqn:H1.
  { apply andb_true_iff in H1. lia. }
  destruct ((65 <=? byte ch) && (byte ch <=? 90)) eqn:H2.
  { apply andb_true_iff in H2. lia. }
  exact I.
Qed.

Lemma decimal_value_ge (s : string) (acc : Z) :
  all_digits s = true -> 0 <= acc -> acc <= decimal_value s acc.
Proof.
  revert acc. induction s as [|ch rest IH]; intros acc Hd Hacc; simpl in *.
  - lia.
  - apply andb_true_iff in Hd as [Hc Hr].
    destruct (digit_value_digit ch Hc) as [_ Hb].
    change (byte "0") with 48.
    specialize (IH (acc * 10 + (byte ch - 48)) Hr). lia.
Qed.

Lemma maxUint64_value : maxUint64 = 18446744073709551615.
Proof. reflexivity. Qed.

Lemma ParseUint_loop_digits (s0 s : string) (n : Z) :
  0 <= n <= maxUint64 ->
  all_digits s = true ->
  ParseUint_loop s0 s n =
  if decimal_value s n <=? maxUint64
  then (decimal_value s n, None)
  else (maxUint64, Some (rangeError "ParseUint" s0)).
Proof.
  revert n. induction s as [|ch rest IH]; intros n Hn Hd.
  - simpl. destruct (Z.leb_spec n maxUint64); [reflexivity | lia].
  - simpl in Hd. apply andb_true_iff in Hd as [Hc Hr].
    destruct (digit_value_digit ch Hc) as [Hdv Hb].
    cbn [ParseUint_loop decimal_value]. rewrite Hdv.
    change (byte "0") with 48.
    set (d := byte ch - 48) in *.
    change (uint64 (uint64 (Z.shiftl 1 64) - 1)) with maxUint64.
    change (maxUint64 / 10 + 1) with 1844674407370955162.
    pose proof (decimal_value_ge rest (n * 10 + d) Hr) as Hge.
    rewrite maxUint64_value in *.
    destruct (Z.geb_spec d 10); [lia|].
    destruct (Z.geb_spec n 1844674407370955162).
    { destruct (Z.leb_spec (decimal_value rest (n * 10 + d)) 18446744073709551615);
        [lia | reflexivity]. }
    unfold uint64. change (2 ^ 64) with 18446744073709551616.
    rewrite (Z.mod_small (n * 10)) by lia.
    destruct (Z_le_gt_dec (n * 10 + d) 18446744073709551615) as [Hfit|Hover].
    + rewrite (Z.mod_small (n * 10 + d)) by lia.
      destruct (Z.ltb_spec (n * 10 + d) (n * 10)); [lia|].
      destruct (Z.gtb_spec (n * 10 + d) 18446744073709551615); [lia|].
      simpl. rewrite IH; [reflexivity | lia | exact Hr].
    + assert (Hm : (n * 10 + d) mod 18446744073709551616
                   = n * 10 + d - 18446744073709551616).
      { symmetry. apply Z.mod_unique with (q := 1); lia. }
      rewrite Hm.
      destruct (Z.ltb_spec (n * 10 + d - 18446744073709551616) (n * 10)); [|lia].
      simpl.
      destruct (Z.leb_spec (decimal_value rest (n * 10 + d)) 18446744073709551615);
        [lia | reflexivity].
Qed.

Lemma ParseUint_loop_not_digits (s0 s : string) (n : Z) :
  0 <= n <= maxUint64 ->
  all_digits s = false ->
  ParseUint_loop s0 s n = (0, Some (syntaxError "ParseUint" s0))
  \/ ParseUint_loop s0 s n = (maxUint64, Some (rangeError "ParseUint" s0)).
Proof.
  revert n. induction s as [|ch rest IH]; intros n Hn Hd.
  - discriminate.
  - simpl in Hd. cbn [ParseUint_loop].
    destruct (is_digit ch) eqn:Hc.
    + simpl in Hd.
      destruct (digit_value_digit ch Hc) as [Hdv Hb]. rewrite Hdv.
      set (d := byte ch - 48) in *.
      change (uint64 (uint64 (Z.shiftl 1 64) - 1)) with maxUint64.
      change (maxUint64 / 10 + 1) with 1844674407370955162.
      destruct (Z.geb_spec d 10); [lia|].
      destruct (Z.geb_spec n 1844674407370955162); [by right|].
      destruct (_ || _) eqn:Hov; [by right|].
      apply IH; [|exact Hd].
      unfold uint64. rewrite maxUint64_value.
      change (2 ^ 64) with 18446744073709551616.
      pose proof (Z.mod_pos_bound (n * 10 mod 18446744073709551616 + d)
                    18446744073709551616). lia.
    + pose proof (digit_value_other ch Hc) as Ho.
      destruct (digit_value (byte ch)) as [d|]; [|by left].
      destruct (Z.geb_spec d 10); [by left | lia].
Qed.

Lemma ParseUint_cases (body : string) :
  match body with
  | EmptyString => ParseUint body = (0, Some (syntaxError "ParseUint" body))
  | _ =>
      if all_digits body
      then ParseUint body =
           if decimal_value body 0 <=? maxUint64
           then (decimal_value body 0, None)
           else (maxUint64, Some (rangeError "ParseUint" body))
      else ParseUint body = (0, Some (syntaxError "ParseUint" body))
           \/ ParseUint body = (maxUint64, Some (rangeError "ParseUint" body))
  end.
Proof.
  destruct body as [|ch rest]; [reflexivity|].
  unfold ParseUint.
  change (Nat.eqb (String.length (String ch rest)) 0) with false.
  cbv iota.
  destruct (all_digits (String ch rest)) eqn:Hd.
  - apply ParseUint_loop_digits; [rewrite maxUint64_value; lia | exact Hd].
  - apply ParseUint_loop_not_digits; [rewrite maxUint64_value; lia | exact Hd].
Qed.

Lemma int64_small (z : Z) : - 2 ^ 63 <= z < 2 ^ 63 -> int64 z = z.
Proof.
  intros H. unfold int64. rewrite Z.mod_small; lia.
Qed.

Lemma ParseInt_unsigned_spec (s0 : string) (neg : bool) (body : string) :
  match decimal_digits neg body with
  | Some v => ParseInt_unsigned s0 neg body = (v, None)
  | None => exists v e, ParseInt_unsigned s0 neg body = (v, Some e)
  end.
Proof.
  pose proof (ParseUint_cases body) as HU.
  unfold ParseInt_unsigned, decimal_digits.
  change (uint64 (Z.shiftl 1 63)) with 9223372036854775808.
  destruct body as [|ch rest]; [rewrite HU; simpl; eauto|].
  set (body := String ch rest) in *.
  destruct (all_digits body) eqn:Hd.
  2:{ simpl. destruct HU as [-> | ->]; simpl; [eauto|].
      rewrite maxUint64_value. destruct neg; simpl; eauto. }
  rewrite HU.
  pose proof (decimal_value_ge body 0 Hd ltac:(lia)) as Hge.
  set (V := decimal_value body 0) in *.
  rewrite maxUint64_value. rewrite andb_true_l.
  destruct (V <=? 18446744073709551615) eqn:Hfit; cbv iota beta.
  - destruct neg; cbn [negb andb].
    + destruct (V >? 9223372036854775808) eqn:Hbig;
        destruct ((- 2 ^ 63 <=? - V) && (- V <=? 2 ^ 63 - 1)) eqn:Hr;
        bools_to_Z; try lia; [eauto|].
      f_equal.
      destruct (Z.eq_dec V 9223372036854775808) as [->|Hne]; [reflexivity|].
      rewrite (int64_small V) by lia. apply int64_small. lia.
    + destruct (V >=? 9223372036854775808) eqn:Hbig;
        destruct ((- 2 ^ 63 <=? V) && (V <=? 2 ^ 63 - 1)) eqn:Hr;
        bools_to_Z; try lia; [eauto|].
      f_equal. apply int64_small. lia.
  - destruct neg; cbn [negb andb].
    + destruct ((- 2 ^ 63 <=? - V) && (- V <=? 2 ^ 63 - 1)) eqn:Hr;
        bools_to_Z; try lia; simpl; eauto.
    + destruct ((- 2 ^ 63 <=? V) && (V <=? 2 ^ 63 - 1)) eqn:Hr;
        bools_to_Z; try lia; simpl; eauto.
Qed.

Lemma ParseInt_spec (s : string) :
  match decimal_int64 s with
  | Some v => ParseInt s = (v, None)
  | None => exists v e, ParseInt s = (v, Some e)
  end.
Proof.
  destruct s as [|c0 tail]; [simpl; eauto|].
  unfold ParseInt, decimal_int64.
  destruct (Ascii.eqb c0 "+"); [apply ParseInt_unsigned_spec|].
  destruct (Ascii.eqb c0 "-"); apply ParseInt_unsigned_spec.
Qed.

End ParseIntFacts.

(** *** getSystemInstallDate *)

(** C7. getSystemInstallDate returns an error exactly when the store lookup
    of the installation-date key fails or the stored value is not a base-10
    64-bit integer. A store error comes back as it is, with value 0; a value
    that does not parse gives value 0 and an application error that carries
    status 500; a value that parses comes back with a nil error. The store is
    read once, under the installation-date key. *)
Theorem getSystemInstallDate_result (a : App) (w : World) :
  let res := eval (getSystemInstallDate a) w in
  let w' := exec (getSystemInstallDate a) w in
  let key := SYSTEM_INSTALLATION_DATE_KEY in
  (∀ e s', SystemGetByName key (store w) = (Err e, s') →
           res = (0%Z, Some e))
  ∧ (∀ sys s', SystemGetByName key (store w) = (Data sys, s') →
       strconv.decimal_int64 (Value sys) = None →
       ∃ v ne, strconv.ParseInt (Value sys) = (v, Some ne)
         ∧ res = (0%Z,
                  Some {| Where := "getSystemInstallDate";
                          Id := "app.system_install_date.parse_int.app_error";
                          DetailedError := NumError_Error ne;
                          StatusCode := 500 |}))
  ∧ (∀ sys s' v, SystemGetByName key (store w) = (Data sys, s') →
       strconv.decimal_int64 (Value sys) = Some v →
       res = (v, None))
  ∧ (res.2 ≠ None ↔
     (∃ e s', SystemGetByName key (store w) = (Err e, s'))
     ∨ (∃ sys s', SystemGetByName key (store w) = (Data sys, s')
                  ∧ strconv.decimal_int64 (Value sys) = None))
  ∧ trace w' = trace w
               ++ [EvSystemGetByName key (SystemGetByName key (store w)).1]
  ∧ store w' = (SystemGetByName key (store w)).2.
Proof.
  unfold eval, exec, getSystemInstallDate, Store_System_GetByName.
  unfold_monad. simpl.
  destruct (SystemGetByName SYSTEM_INSTALLATION_DATE_KEY (store w))
    as [[sys|e] s1] eqn:Hget; simpl.
  - pose proof (ParseInt_spec (Value sys)) as Hp.
    destruct (strconv.decimal_int64 (Value sys)) as [v|] eqn:Hdec.
    + rewrite Hp. simpl.
      split; [intros ? ? [=]|].
      split; [intros ? ? [= <- <-]; congruence|].
      split; [intros ? ? ? [= <- <-]; congruence|].
      split; [|done].
      split; [done|].
      intros [(? & ? & [=]) | (? & ? & [= <- <-] & ?)]; congruence.
    + destruct Hp as (v & ne & Hp). rewrite Hp. simpl.
      split; [intros ? ? [=]|].
      split; [intros ? ? [= <- <-] _; eauto|].
      split; [intros ? ? ? [= <- <-]; congruence|].
      split; [|done].
      split; [|done]. intros _. right. eauto.
  - split; [by intros ? ? [= <- <-]|].
    split; [intros ? ? [=]|].
    split; [intros ? ? ? [=]|].
    split; [|done].
    split; [|done]. intros _. left. eauto.
Qed.

(** ** Further properties *)

(** *** DiagnosticId and SetDiagnosticId with EnsureDiagnosticId *)

(** SetDiagnosticId overrides the cache. What DiagnosticId reads is what was
    set, and nothing else of the application changes. A non-empty id pins
    the value: EnsureDiagnosticId then leaves application and world alone,
    whatever the store holds. The empty id clears the cache: what the next
    EnsureDiagnosticId does and caches no longer depends on the id that was
    cached before. *)
Theorem SetDiagnosticId_overrides_the_cache
    (id : string) (a b : App) (w : World) :
  DiagnosticId (SetDiagnosticId id a) = id
  ∧ Jobs (Srv (SetDiagnosticId id a)) = Jobs (Srv a)
  ∧ config (Srv (SetDiagnosticId id a)) = config (Srv a)
  ∧ licenseValue (Srv (SetDiagnosticId id a)) = licenseValue (Srv a)
  ∧ goroutines (Srv (SetDiagnosticId id a)) = goroutines (Srv a)
  ∧ configListeners (SetDiagnosticId id a) = configListeners a
  ∧ licenseListeners (SetDiagnosticId id a) = licenseListeners a
  ∧ SetDiagnosticId (DiagnosticId a) a = a
  ∧ (id ≠ EmptyString →
     EnsureDiagnosticId (SetDiagnosticId id a) w = (SetDiagnosticId id a, w))
  ∧ exec (EnsureDiagnosticId (SetDiagnosticId EmptyString a)) w
    = exec (EnsureDiagnosticId (SetDiagnosticId EmptyString b)) w
  ∧ DiagnosticId (eval (EnsureDiagnosticId (SetDiagnosticId EmptyString a)) w)
    = DiagnosticId
        (eval (EnsureDiagnosticId (SetDiagnosticId EmptyString b)) w).
Proof.
  do 7 (split; [reflexivity|]).
  split; [by destruct a as [[] ? ?]|].
  split; [intros Hid; by apply EnsureDiagnosticId_cached|].
  assert (Hreset : ∀ c : App,
            DiagnosticId (SetDiagnosticId EmptyString c) = EmptyString)
    by reflexivity.
  unfold eval, exec.
  destruct (SystemGet (store w)) as [[m|e] s1] eqn:Hget.
  - destruct (decide (index m SYSTEM_DIAGNOSTIC_ID = EmptyString)) as [Hi|Hi].
    + destruct (NewId (rand w)) as [nid g1] eqn:Hnew.
      destruct (SystemSave {| Name := SYSTEM_DIAGNOSTIC_ID; Value := nid |} s1)
        as [r s2] eqn:Hsave.
      by rewrite !(EnsureDiagnosticId_generated _ _ _ _ _ _ _ _
                     (Hreset _) Hget Hi Hnew Hsave).
    + by rewrite !(EnsureDiagnosticId_found _ _ _ _ (Hreset _) Hget Hi).
  - by rewrite !(EnsureDiagnosticId_read_failed _ _ _ _ (Hreset _) Hget).
Qed.

(** What one call of EnsureDiagnosticId can do, in all: its events are none,
    or one failed read, or one read, or one read, one generation and one
    Save of the generated id under the diagnostic-id key, in that order. The
    trace is only extended. The engine is not called, nothing is logged, the
    rest of the application is as before, and an id that was cached is
    never replaced. *)
Theorem EnsureDiagnosticId_footprint (a : App) (w : World) :
  let a' := eval (EnsureDiagnosticId a) w in
  let w' := exec (EnsureDiagnosticId a) w in
  let evs := since w w' in
  trace w' = trace w ++ evs
  ∧ (evs = []
     ∨ (∃ e, evs = [EvSystemGet (Err e)])
     ∨ (∃ m, evs = [EvSystemGet (Data m)])
     ∨ (∃ m r, evs = [EvSystemGet (Data m); EvNewId (DiagnosticId a');
                      EvSystemSave {| Name := SYSTEM_DIAGNOSTIC_ID;
                                      Value := DiagnosticId a' |} r]))
  ∧ es w' = es w
  ∧ calls evs = [] ∧ logged evs = []
  ∧ a' = SetDiagnosticId (DiagnosticId a') a
  ∧ (DiagnosticId a ≠ EmptyString → DiagnosticId a' = DiagnosticId a).
Proof.
  unfold eval, exec. simpl.
  destruct (decide (DiagnosticId a = EmptyString)) as [He|Hne].
  2:{ rewrite (EnsureDiagnosticId_cached _ _ Hne). simpl.
      unfold since. rewrite drop_all, app_nil_r.
      repeat split; try done; [by left | by destruct a as [[] ? ?]]. }
  assert (Hself : a = SetDiagnosticId EmptyString a).
  { rewrite <- He. by destruct a as [[] ? ?]. }
  destruct (SystemGet (store w)) as [[m|e] s1] eqn:Hget.
  - destruct (decide (index m SYSTEM_DIAGNOSTIC_ID = EmptyString)) as [Hi|Hi].
    + destruct (NewId (rand w)) as [nid g1] eqn:Hnew.
      destruct (SystemSave {| Name := SYSTEM_DIAGNOSTIC_ID; Value := nid |} s1)
        as [r s2] eqn:Hsave.
      rewrite (EnsureDiagnosticId_generated _ _ _ _ _ _ _ _
                 He Hget Hi Hnew Hsave). simpl.
      unfold since. simpl. rewrite drop_app_length.
      repeat split; try done. right. right. right. eauto.
    + rewrite (EnsureDiagnosticId_found _ _ _ _ He Hget Hi). simpl.
      unfold since. simpl. rewrite drop_app_length.
      repeat split; try done. right. right. left. eauto.
  - rewrite (EnsureDiagnosticId_read_failed _ _ _ _ He Hget). simpl.
    unfold since. simpl. rewrite drop_app_length.
    repeat split; try done; [right; left; eauto | by rewrite He].
Qed.

(** What a store keeps is read back after a restart: when the first call
    generated an identifier and its Save succeeded, and the store then
    delivers that identifier under the diagnostic-id key, a fresh
    application (empty in-memory id) gets the same identifier from one read,
    with no generation and no Save. *)
Theorem diagnostic_id_survives_a_restart
    (a b : App) (w : World) m s1 id g1 s2 m2 s3 :
  DiagnosticId a = EmptyString ->
  DiagnosticId b = EmptyString ->
  SystemGet (store w) = (Data m, s1) ->
  index m SYSTEM_DIAGNOSTIC_ID = EmptyString ->
  NewId (rand w) = (id, g1) ->
  id ≠ EmptyString ->
  SystemSave {| Name := SYSTEM_DIAGNOSTIC_ID; Value := id |} s1 = (None, s2) ->
  SystemGet s2 = (Data m2, s3) ->
  m2 !! SYSTEM_DIAGNOSTIC_ID = Some id ->
  let w1 := exec (EnsureDiagnosticId a) w in
  let b' := eval (EnsureDiagnosticId b) w1 in
  let w2 := exec (EnsureDiagnosticId b) w1 in
  DiagnosticId (eval (EnsureDiagnosticId a) w) = id
  ∧ DiagnosticId b' = id
  ∧ since w1 w2 = [EvSystemGet (Data m2)]
  ∧ generated (since w1 w2) = []
  ∧ saved (since w1 w2) = [].
Proof.
  intros Ha Hb Hget Hi Hnew Hid Hsave Hget2 Hm2. unfold eval, exec. simpl.
  rewrite (EnsureDiagnosticId_generated _ _ _ _ _ _ _ _
             Ha Hget Hi Hnew Hsave). simpl.
  split; [reflexivity|].
  assert (Hi2 : index m2 SYSTEM_DIAGNOSTIC_ID = id)
    by (unfold index; by rewrite Hm2).
  erewrite (EnsureDiagnosticId_found b _ m2 s3 Hb);
    [| exact Hget2 | by rewrite Hi2].
  simpl. unfold since. simpl. rewrite drop_app_length.
  by rewrite Hi2.
Qed.

Lemma since_trans (w w1 w2 : World) :
  trace w1 = trace w ++ since w w1 ->
  trace w2 = trace w1 ++ since w1 w2 ->
  trace w2 = trace w ++ since w w2
  ∧ since w w2 = since w w1 ++ since w1 w2.
Proof.
  intros H1 H2.
  assert (Ht : trace w2 = trace w ++ since w w1 ++ since w1 w2).
  { rewrite H2 at 1. rewrite H1 at 1. by rewrite <- app_assoc. }
  rewrite (since_app _ _ _ Ht). by split.
Qed.

(** Over any number of calls in a row, at most one identifier is generated
    and every generated identifier is handed to Save exactly once, provided
    the random source never delivers the empty identifier: the Saves issued
    are those of the generated identifiers, there is at most one, and it is
    the identifier that ends up cached. An id cached at the start means no
    event at all. *)
Theorem EnsureDiagnosticId_generates_at_most_once
    (good : G -> Prop) (n : nat) (a : App) (w : World) :
  (∀ g, good g → (NewId g).1 ≠ EmptyString ∧ good (NewId g).2) ->
  good (rand w) ->
  let a' := eval (EnsureDiagnosticId_times n a) w in
  let w' := exec (EnsureDiagnosticId_times n a) w in
  let evs := since w w' in
  trace w' = trace w ++ evs
  ∧ (generated evs = [] ∨ generated evs = [DiagnosticId a'])
  ∧ saved evs
    = map (fun id => {| Name := SYSTEM_DIAGNOSTIC_ID; Value := id |})
          (generated evs)
  ∧ length (saved evs) ≤ 1
  ∧ (DiagnosticId a ≠ EmptyString → evs = [])
  ∧ good (rand w').
Proof.
  intros Hgood. revert a w.
  induction n as [|n IH]; intros a w Hg.
  { unfold eval, exec. simpl. unfold since. rewrite drop_all, app_nil_r.
    repeat split; try done; [by left | simpl; lia]. }
  destruct (decide (DiagnosticId a = EmptyString)) as [He|Hne].
  2:{ unfold eval, exec.
      rewrite (EnsureDiagnosticId_times_cached (Datatypes.S n) a w Hne). simpl.
      unfold since. rewrite drop_all, app_nil_r.
      repeat split; try done; [by left | simpl; lia]. }
  unfold eval, exec. cbn [EnsureDiagnosticId_times].
  unfold mbind, state_bind.
  destruct (SystemGet (store w)) as [[m|e] s1] eqn:Hget.
  - destruct (decide (index m SYSTEM_DIAGNOSTIC_ID = EmptyString)) as [Hi|Hi].
    + destruct (NewId (rand w)) as [nid g1] eqn:Hnew.
      destruct (SystemSave {| Name := SYSTEM_DIAGNOSTIC_ID; Value := nid |} s1)
        as [r s2] eqn:Hsave.
      destruct (Hgood _ Hg) as [Hnid Hg1]. rewrite Hnew in Hnid, Hg1.
      simpl in Hnid, Hg1.
      rewrite (EnsureDiagnosticId_generated _ _ _ _ _ _ _ _
                 He Hget Hi Hnew Hsave).
      rewrite EnsureDiagnosticId_times_cached by exact Hnid. simpl.
      unfold since. simpl. rewrite drop_app_length. simpl.
      repeat split; try done. by right.
    + rewrite (EnsureDiagnosticId_found _ _ _ _ He Hget Hi).
      rewrite EnsureDiagnosticId_times_cached by exact Hi. simpl.
      unfold since. simpl. rewrite drop_app_length. simpl.
      repeat split; try done; [by left | lia].
  - rewrite (EnsureDiagnosticId_read_failed _ _ _ _ He Hget).
    set (w1 := {| store := s1; es := es w; rand := rand w;
                  trace := trace w ++ [EvSystemGet (Err e)] |}).
    destruct (IH a w1 Hg) as (Ht & Hgen & Hsv & Hlen & _ & Hg').
    unfold eval, exec in Ht, Hgen, Hsv, Hlen, Hg'. simpl in Ht, Hgen, Hsv, Hlen, Hg'.
    destruct (EnsureDiagnosticId_times n a w1) as [a2 w2] eqn:Hrun.
    simpl in *.
    assert (H1 : trace w1 = trace w ++ since w w1).
    { unfold since. simpl. by rewrite drop_app_length. }
    destruct (since_trans w w1 w2 H1 Ht) as [Hext Hsplit].
    assert (Hs1 : since w w1 = [EvSystemGet (Err e)]).
    { unfold since. simpl. by rewrite drop_app_length. }
    rewrite Hsplit, Hs1. simpl.
    repeat split; try done.
    rewrite Ht. unfold w1. simpl. by rewrite <- app_assoc.
Qed.

(** *** The listeners along a history *)

Lemma goroutines_config_listener (old new : Config) (srv : Server) :
  goroutines (esConfigListener old new srv)
  = goroutines srv ++ dispatched srv (esConfigListener old new srv).
Proof.
  destruct (esConfigListener_appends old new srv) as [-> | (t & -> & _)].
  - by rewrite dispatched_same, app_nil_r.
  - by rewrite dispatched_Go.
Qed.

Lemma config_listener_keeps_errors (old new : Config) (srv : Server) :
  Forall keeps_errors (dispatched srv (esConfigListener old new srv)).
Proof.
  rewrite dispatched_config_listener.
  destruct (delta old new) as [[[] []] []]; repeat constructor;
    first [apply keeps_errors_call | apply keeps_errors_restart].
Qed.

Lemma dispatched_trans (s s1 s2 : Server) :
  goroutines s1 = goroutines s ++ dispatched s s1 ->
  goroutines s2 = goroutines s1 ++ dispatched s1 s2 ->
  goroutines s2 = goroutines s ++ dispatched s s2
  ∧ dispatched s s2 = dispatched s s1 ++ dispatched s1 s2.
Proof.
  intros H1 H2.
  assert (Hg : goroutines s2
               = goroutines s ++ dispatched s s1 ++ dispatched s1 s2).
  { rewrite H2 at 1. rewrite H1 at 1. by rewrite <- app_assoc. }
  assert (Hd : dispatched s s2 = dispatched s s1 ++ dispatched s1 s2).
  { unfold dispatched at 1. rewrite Hg. apply drop_app_length. }
  rewrite Hd. by split.
Qed.

Lemma run_all_app (ts1 ts2 : list Task) (w : World) :
  run_all (ts1 ++ ts2) w = run_all ts2 (run_all ts1 w).
Proof. unfold run_all. apply foldl_app. Qed.

Lemma run_all_extends (ts : list Task) (w : World) :
  Forall keeps_errors ts ->
  trace (run_all ts w) = trace w ++ since w (run_all ts w)
  ∧ logged (since w (run_all ts w))
    = map AppError_Error (returned_errors (since w (run_all ts w))).
Proof.
  intros Hts. revert w. induction Hts as [|t ts [ops Ht] _ IH]; intros w.
  - simpl. unfold since. rewrite drop_all. simpl. by rewrite app_nil_r.
  - simpl. destruct (Ht w) as (_ & Hl & Hext & _).
    destruct (IH (exec t w)) as [Hext2 Hl2].
    destruct (since_trans _ _ _ Hext Hext2) as [Hx Hs].
    split; [exact Hx|].
    rewrite Hs. unfold logged, returned_errors in *.
    by rewrite !omap_app, map_app, Hl, Hl2.
Qed.

Lemma goroutines_config_changes
    (c : Config) (cs : list Config) (srv : Server) :
  goroutines (config_changes c cs srv)
  = goroutines srv ++ dispatched srv (config_changes c cs srv).
Proof.
  revert c srv. induction cs as [|c' rest IH]; intros c srv.
  - simpl. by rewrite dispatched_same, app_nil_r.
  - cbn [config_changes].
    apply (dispatched_trans _ _ _ (goroutines_config_listener c c' srv)
             (IH c' _)).
Qed.

(** A history of configuration changes composes as the table says: when the
    closures the listener dispatched over the whole history are run in the
    order of dispatch, the calls into the engine are the actions of the
    table for the successive pairs of snapshots, one after the other; the
    pool only grows, and every error the engine returned is in the log. *)
Theorem config_history_follows_the_table
    (c : Config) (cs : list Config) (srv : Server) (w : World) :
  let srv' := config_changes c cs srv in
  let w' := run_all (dispatched srv srv') w in
  goroutines srv' = goroutines srv ++ dispatched srv srv'
  ∧ trace w' = trace w ++ since w w'
  ∧ calls (since w w') = table_calls c cs
  ∧ logged (since w w') = map AppError_Error (returned_errors (since w w')).
Proof.
  simpl. revert c srv w. induction cs as [|c' rest IH]; intros c srv w.
  - simpl. rewrite dispatched_same. simpl. unfold since.
    rewrite drop_all, !app_nil_r. by repeat split.
  - cbn [config_changes table_calls].
    set (srv1 := esConfigListener c c' srv).
    pose proof (goroutines_config_listener c c' srv) as Hg1. fold srv1 in Hg1.
    pose proof (config_listener_keeps_errors c c' srv) as Hk1.
    fold srv1 in Hk1.
    set (w1 := run_all (dispatched srv srv1) w).
    destruct (IH c' srv1 w1) as (Hg2 & Hext2 & Hc2 & Hl2).
    destruct (dispatched_trans _ _ _ Hg1 Hg2) as [Hg Hd].
    destruct (run_all_extends _ w Hk1) as [Hext1 Hl1]. fold w1 in Hext1, Hl1.
    rewrite Hd, run_all_app. fold w1.
    destruct (since_trans _ _ _ Hext1 Hext2) as [Hx Hs].
    split; [by rewrite <- Hd|]. split; [exact Hx|].
    rewrite Hs. unfold calls, logged, returned_errors in *.
    rewrite !omap_app, map_app, Hc2, Hl1, Hl2. split; [|reflexivity].
    f_equal. apply (action_config_listener c c' srv w).
Qed.

Lemma es_call_and_log (op : EsOp) (w : World) :
  es (exec (call_and_log op) w) = (engine_step op (es w)).2.
Proof. by rewrite exec_call_and_log. Qed.

(** The config listener keeps the engine in step with the configuration.
    For an engine on which Start leaves it running and Stop leaves it
    stopped (on the states [healthy] singles out), if the engine runs
    exactly when indexing is enabled before a history of configuration
    changes, it runs exactly when indexing is enabled in the last snapshot
    once the dispatched closures have run in order. *)
Theorem engine_follows_the_configuration
    (running : E -> bool) (healthy : E -> Prop)
    (c : Config) (cs : list Config) (srv : Server) (w : World) :
  (∀ e, healthy e → healthy (Start e).2 ∧ running (Start e).2 = true) ->
  (∀ e, healthy e → healthy (Stop e).2 ∧ running (Stop e).2 = false) ->
  healthy (es w) ->
  running (es w) = EnableIndexing (Elasticsearch_ c) ->
  let w' := run_all (dispatched srv (config_changes c cs srv)) w in
  healthy (es w')
  ∧ running (es w') = EnableIndexing (Elasticsearch_ (default c (last cs))).
Proof.
  intros Hstart Hstop. simpl. revert c srv w.
  induction cs as [|c' rest IH]; intros c srv w Hh Hr.
  - simpl. rewrite dispatched_same. by split.
  - cbn [config_changes].
    set (srv1 := esConfigListener c c' srv).
    pose proof (goroutines_config_listener c c' srv) as Hg1. fold srv1 in Hg1.
    pose proof (goroutines_config_changes c' rest srv1) as Hg2.
    destruct (dispatched_trans _ _ _ Hg1 Hg2) as [_ Hd].
    rewrite Hd, run_all_app.
    set (w1 := run_all (dispatched srv srv1) w).
    assert (H1 : healthy (es w1)
                 ∧ running (es w1) = EnableIndexing (Elasticsearch_ c')).
    { unfold w1, srv1. rewrite dispatched_config_listener. unfold delta.
      destruct (EnableIndexing (Elasticsearch_ c)) eqn:Ho,
        (EnableIndexing (Elasticsearch_ c')) eqn:Hn,
        (connection_changed c c') eqn:Hch; simpl;
        unfold restartTask, startTask, stopTask;
        rewrite ?Ho, ?exec_seq, ?es_call_and_log; simpl;
        first [ apply Hstart; apply Hstop; exact Hh
              | apply Hstart; exact Hh
              | apply Hstop; exact Hh
              | by split ]. }
    destruct H1 as [Hh1 Hr1].
    rewrite last_cons.
    destruct (IH c' srv1 w1 Hh1 Hr1) as [Hh2 Hr2].
    split; [exact Hh2|]. rewrite Hr2. by destruct (last rest).
Qed.

(** What the config listener never does: with indexing disabled in the new
    snapshot nothing it dispatches calls Start; with indexing disabled in the
    old snapshot nothing it dispatches calls Stop; with indexing enabled in
    the new snapshot the last call it causes, if any, is not a Stop; and for
    two equal snapshots it hands nothing to Go at all. *)
Theorem config_listener_respects_the_flags
    (old new : Config) (srv : Server) (w : World) :
  let act := action (esConfigListener old new) srv w in
  (EnableIndexing (Elasticsearch_ new) = false → OpStart ∉ act)
  ∧ (EnableIndexing (Elasticsearch_ old) = false → OpStop ∉ act)
  ∧ (EnableIndexing (Elasticsearch_ new) = true → last act ≠ Some OpStop)
  ∧ (old = new → esConfigListener old new srv = srv).
Proof.
  simpl. rewrite action_config_listener.
  split; [| split; [| split]].
  - intros ->. destruct (EnableIndexing _), (connection_changed old new);
      simpl; intros Hin; by repeat (apply elem_of_cons in Hin as [Hin|Hin]);
      try apply elem_of_nil in Hin.
  - intros ->. destruct (EnableIndexing _), (connection_changed old new);
      simpl; intros Hin; by repeat (apply elem_of_cons in Hin as [Hin|Hin]);
      try apply elem_of_nil in Hin.
  - intros ->. by destruct (EnableIndexing _), (connection_changed old new).
  - intros <-. rewrite esConfigListener_by_delta. unfold delta.
    assert (Hc : connection_changed old old = false).
    { unfold connection_changed. apply bool_decide_eq_false.
      intros [H|[H|[H|H]]]; by apply H. }
    rewrite Hc. by destruct (EnableIndexing _).
Qed.

(** *** The license listener against the configuration *)

(** The license listener sets the engine by the license alone. For an engine
    on which Start leaves it running and Stop leaves it stopped, once the
    closure it dispatched has run the engine runs exactly when a license is
    present, whatever the configuration says about indexing. *)
Theorem license_listener_overrides_the_configuration
    (running : E -> bool) (healthy : E -> Prop) (srv : Server) (w : World) :
  (∀ e, healthy e → healthy (Start e).2 ∧ running (Start e).2 = true) ->
  (∀ e, healthy e → healthy (Stop e).2 ∧ running (Stop e).2 = false) ->
  healthy (es w) ->
  let w' := run_all (dispatched srv (esLicenseListener srv)) w in
  healthy (es w')
  ∧ running (es w') = bool_decide (licenseValue srv ≠ None)
  ∧ config (esLicenseListener srv) = config srv.
Proof.
  intros Hstart Hstop Hh. simpl.
  unfold esLicenseListener, License_.
  destruct (licenseValue srv) as [lic|]; rewrite dispatched_Go; simpl;
    unfold startTask, stopTask; rewrite es_call_and_log; simpl.
  - destruct (Hstart _ Hh) as [H1 H2]. by repeat split.
  - destruct (Hstop _ Hh) as [H1 H2]. by repeat split.
Qed.

(** *** StartElasticsearch called again *)

Lemma run_all_starts (n : nat) (w : World) :
  trace (run_all (replicate n startTask) w)
  = trace w ++ since w (run_all (replicate n startTask) w)
  ∧ calls (since w (run_all (replicate n startTask) w)) = replicate n OpStart.
Proof.
  revert w. induction n as [|n IH]; intros w.
  - simpl. unfold since. rewrite drop_all. simpl. by rewrite app_nil_r.
  - simpl. destruct (IH (exec startTask w)) as [Hext2 Hc2].
    assert (Hext1 : trace (exec startTask w)
                    = trace w ++ since w (exec startTask w)).
    { by rewrite (since_app _ _ _ (trace_startTask w)), trace_startTask. }
    destruct (since_trans _ _ _ Hext1 Hext2) as [Hx Hs].
    split; [exact Hx|].
    rewrite Hs. unfold calls in *. rewrite omap_app, Hc2.
    rewrite (since_app _ _ _ (trace_startTask w)).
    fold calls. by rewrite calls_call_events.
Qed.

Lemma StartElasticsearch_fields (b : App) :
  goroutines (Srv (StartElasticsearch b)) = goroutines (Srv b) ++ [startTask]
  ∧ configListeners (StartElasticsearch b)
    = configListeners b ++ [esConfigListener]
  ∧ licenseListeners (StartElasticsearch b)
    = licenseListeners b ++ [esLicenseListener]
  ∧ config (Srv (StartElasticsearch b)) = config (Srv b)
  ∧ licenseValue (Srv (StartElasticsearch b)) = licenseValue (Srv b)
  ∧ diagnosticId (Srv (StartElasticsearch b)) = diagnosticId (Srv b)
  ∧ Jobs (Srv (StartElasticsearch b)) = Jobs (Srv b).
Proof. by repeat split. Qed.

(** StartElasticsearch has no guard against being called again: [n] calls
    dispatch [n] closures that each call Start and register each of the two
    listeners [n] times, after whatever was dispatched and registered
    before. *)
Theorem StartElasticsearch_is_not_idempotent
    (n : nat) (a : App) (w : World) :
  let a' := StartElasticsearch_times n a in
  goroutines (Srv a') = goroutines (Srv a) ++ replicate n startTask
  ∧ dispatched (Srv a) (Srv a') = replicate n startTask
  ∧ calls (since w (run_all (dispatched (Srv a) (Srv a')) w))
    = replicate n OpStart
  ∧ configListeners a'
    = configListeners a ++ replicate n esConfigListener
  ∧ licenseListeners a'
    = licenseListeners a ++ replicate n esLicenseListener
  ∧ config (Srv a') = config (Srv a)
  ∧ licenseValue (Srv a') = licenseValue (Srv a)
  ∧ diagnosticId (Srv a') = diagnosticId (Srv a)
  ∧ Jobs (Srv a') = Jobs (Srv a).
Proof.
  simpl.
  assert (H : goroutines (Srv (StartElasticsearch_times n a))
              = goroutines (Srv a) ++ replicate n startTask
              ∧ configListeners (StartElasticsearch_times n a)
                = configListeners a ++ replicate n esConfigListener
              ∧ licenseListeners (StartElasticsearch_times n a)
                = licenseListeners a ++ replicate n esLicenseListener
              ∧ config (Srv (StartElasticsearch_times n a)) = config (Srv a)
              ∧ licenseValue (Srv (StartElasticsearch_times n a))
                = licenseValue (Srv a)
              ∧ diagnosticId (Srv (StartElasticsearch_times n a))
                = diagnosticId (Srv a)
              ∧ Jobs (Srv (StartElasticsearch_times n a)) = Jobs (Srv a)).
  { induction n as [|n IH].
    - simpl. by rewrite !app_nil_r.
    - destruct IH as (Hg & Hc & Hl & H1 & H2 & H3 & H4).
      change (StartElasticsearch_times (Datatypes.S n) a)
        with (StartElasticsearch (StartElasticsearch_times n a)).
      destruct (StartElasticsearch_fields (StartElasticsearch_times n a))
        as (Kg & Kc & Kl & K1 & K2 & K3 & K4).
      rewrite Kg, Kc, Kl, K1, K2, K3, K4, Hg, Hc, Hl, H1, H2, H3, H4.
      rewrite !replicate_S_end, !app_assoc. by repeat split. }
  destruct H as (Hg & Hc & Hl & H1 & H2 & H3 & H4).
  assert (Hd : dispatched (Srv a) (Srv (StartElasticsearch_times n a))
               = replicate n startTask).
  { unfold dispatched. rewrite Hg. apply drop_app_length. }
  rewrite Hd. repeat split; try done. apply run_all_starts.
Qed.

(** *** getSystemInstallDate at the edges *)

Section InstallDateEdges.

Import strconv.
Local Open Scope Z_scope.

Lemma digit_is_no_sign (ch : ascii) :
  is_digit ch = true ->
  Ascii.eqb ch "+" = false ∧ Ascii.eqb ch "-" = false.
Proof.
  unfold is_digit. change (byte "0") with 48. change (byte "9") with 57.
  intros H. apply andb_true_iff in H as [H1 H2].
  apply Z.leb_le in H1. apply Z.leb_le in H2.
  split; apply Ascii.eqb_neq; intros ->; vm_compute in H1; by apply H1.
Qed.

Lemma decimal_digits_of_digits (neg : bool) (body : string) :
  body ≠ EmptyString ->
  all_digits body = true ->
  decimal_digits neg body
  = let v := if neg then - decimal_value body 0 else decimal_value body 0 in
    if (- 2 ^ 63 <=? v) && (v <=? 2 ^ 63 - 1) then Some v else None.
Proof.
  intros Hne Hd. unfold decimal_digits.
  destruct body as [|ch rest]; [done|]. by rewrite Hd.
Qed.

Lemma decimal_int64_unsigned (body : string) :
  body ≠ EmptyString ->
  all_digits body = true ->
  decimal_int64 body = decimal_digits false body.
Proof.
  intros Hne Hd. destruct body as [|ch rest]; [done|].
  simpl in Hd. apply andb_true_iff in Hd as [Hc _].
  destruct (digit_is_no_sign ch Hc) as [Hp Hm].
  unfold decimal_int64. by rewrite Hp, Hm.
Qed.

(** The result in terms of the decimal notation. *)
Lemma getSystemInstallDate_by_decimal (a : App) (w : World) sys s' :
  SystemGetByName SYSTEM_INSTALLATION_DATE_KEY (store w) = (Data sys, s') ->
  match decimal_int64 (Value sys) with
  | Some v => eval (getSystemInstallDate a) w = (v, None)
  | None =>
      ∃ e, eval (getSystemInstallDate a) w = (0, Some e)
           ∧ StatusCode e = 500
           ∧ Where e = "getSystemInstallDate"%string
  end.
Proof.
  intros Hget.
  unfold eval, getSystemInstallDate, Store_System_GetByName.
  unfold_monad. rewrite Hget.
  pose proof (ParseInt_spec (Value sys)) as Hp.
  destruct (decimal_int64 (Value sys)) as [v|].
  - by rewrite Hp.
  - destruct Hp as (v & ne & ->). simpl. eauto.
Qed.

(** getSystemInstallDate does not validate the date beyond its being a
    64-bit decimal numeral, and it never guesses. An empty value or a lone
    sign is an error with status 500 and value 0, not a zero date. A string
    of digits, with or without a plus sign, is returned as its value when
    that is at most 2^63 - 1 and is an error with value 0 above that (no
    wrap-around, no clamping); with a minus sign its negation is returned,
    negative dates included, down to -2^63. *)
Theorem getSystemInstallDate_edge_values
    (a : App) (w : World) sys s' (body : string) :
  SystemGetByName SYSTEM_INSTALLATION_DATE_KEY (store w) = (Data sys, s') ->
  let res := eval (getSystemInstallDate a) w in
  let failed := res.1 = 0 ∧ ∃ e, res.2 = Some e ∧ StatusCode e = 500 in
  (Value sys = EmptyString ∨ Value sys = "+"%string ∨ Value sys = "-"%string
   → failed)
  ∧ (body ≠ EmptyString → all_digits body = true →
     let v := decimal_value body 0 in
     (Value sys = body ∨ Value sys = String "+" body →
      if v <=? 2 ^ 63 - 1 then res = (v, None) else failed)
     ∧ (Value sys = String "-" body →
        if v <=? 2 ^ 63 then res = (- v, None) else failed)).
Proof.
  intros Hget. simpl.
  pose proof (getSystemInstallDate_by_decimal a w sys s' Hget) as H.
  assert (Hfail : decimal_int64 (Value sys) = None →
            (eval (getSystemInstallDate a) w).1 = 0
            ∧ ∃ e, (eval (getSystemInstallDate a) w).2 = Some e
                   ∧ StatusCode e = 500).
  { intros Hn. rewrite Hn in H. destruct H as (e & -> & Hs & _). eauto. }
  split.
  { intros [Hv|[Hv|Hv]]; apply Hfail; by rewrite Hv. }
  intros Hne Hd.
  pose proof (decimal_value_ge body 0 Hd ltac:(lia)) as Hge.
  split.
  - intros Hv.
    assert (Hdec : decimal_int64 (Value sys) = decimal_digits false body).
    { destruct Hv as [-> | ->]; [by apply decimal_int64_unsigned|].
      reflexivity. }
    rewrite (decimal_digits_of_digits false body Hne Hd) in Hdec.
    cbv zeta in Hdec.
    destruct (decimal_value body 0 <=? 2 ^ 63 - 1) eqn:Hle.
    + replace (- 2 ^ 63 <=? decimal_value body 0) with true in Hdec
        by (symmetry; apply Z.leb_le; lia).
      simpl in Hdec. by rewrite Hdec in H.
    + rewrite andb_false_r in Hdec. by apply Hfail.
  - intros Hv.
    assert (Hdec : decimal_int64 (Value sys) = decimal_digits true body)
      by (by rewrite Hv).
    rewrite (decimal_digits_of_digits true body Hne Hd) in Hdec.
    cbv zeta in Hdec.
    destruct (decimal_value body 0 <=? 2 ^ 63) eqn:Hle.
    + apply Z.leb_le in Hle.
      replace (- 2 ^ 63 <=? - decimal_value body 0) with true in Hdec
        by (symmetry; apply Z.leb_le; lia).
      replace (- decimal_value body 0 <=? 2 ^ 63 - 1) with true in Hdec
        by (symmetry; apply Z.leb_le; lia).
      simpl in Hdec. by rewrite Hdec in H.
    + apply Z.leb_gt in Hle.
      replace (- 2 ^ 63 <=? - decimal_value body 0) with false in Hdec
        by (symmetry; apply Z.leb_gt; lia).
      simpl in Hdec. by apply Hfail.
Qed.

End InstallDateEdges.

(** *** What a factory sees in initJobs *)

(** When the factory of a kind is called, the job server that the
    application handle leads to holds the producers of the kinds checked
    before it, as they will be in the end, and nothing new for the kinds
    from its own on; its workers and schedulers are not built yet. *)
Theorem initJobs_factory_sees_earlier_producers_only
    (s : Server) (k k' : JobKind) :
  let seen := attached_before k s in
  (producer k' <$> Jobs (initJobs s)) = Some (producer k' (attached_all s))
  ∧ producer k (attached_all s)
    = match factory k with
      | Some mk => Some (mk (FakeApp (set_Jobs seen s)))
      | None => producer k (NewJobServer s)
      end
  ∧ producer k' seen
    = (if (kind_index k' <? kind_index k)%nat
       then producer k' (attached_all s)
       else producer k' (NewJobServer s))
  ∧ JS_Workers seen = JS_Workers (NewJobServer s)
  ∧ JS_Schedulers seen = JS_Schedulers (NewJobServer s).
Proof.
  simpl. split; [by destruct k'|].
  split; [apply producer_attached_all|].
  unfold attached_all, attached_before, kinds, attach.
  destruct k, k'; simpl;
    destruct jobsDataRetentionJobInterface, jobsMessageExportJobInterface,
      jobsElasticsearchAggregatorInterface, jobsElasticsearchIndexerInterface,
      jobsLdapSyncInterface, jobsMigrationsInterface; by repeat split.
Qed.

End App.

(** ** Concrete runs *)

Arguments Jobs {S E G JobInterface Workers Schedulers} s.
Arguments diagnosticId {S E G JobInterface Workers Schedulers} s.
Arguments config {S E G JobInterface Workers Schedulers} s.
Arguments licenseValue {S E G JobInterface Workers Schedulers} s.
Arguments goroutines {S E G JobInterface Workers Schedulers} s.
Arguments Srv {S E G JobInterface Workers Schedulers} a.
Arguments configListeners {S E G JobInterface Workers Schedulers} a.
Arguments licenseListeners {S E G JobInterface Workers Schedulers} a.
Arguments JS_Workers {JobInterface Workers Schedulers} j.
Arguments JS_Schedulers {JobInterface Workers Schedulers} j.
Arguments producer {JobInterface Workers Schedulers} k j.
Arguments DiagnosticId {S E G JobInterface Workers Schedulers} a.
Arguments dispatched {S E G JobInterface Workers Schedulers} before after.
Arguments action {S E G JobInterface Workers Schedulers} l srv w.

(** A password change with indexing enabled, on an engine whose calls fail:
    one closure, Stop before Start, both errors logged. *)
Lemma connection_change_witness :
  let srv : Server NoJob unit unit :=
    {| Jobs := None; diagnosticId := EmptyString; config := cfg true "new";
       licenseValue := None; goroutines := [] |} in
  let w : World :=
    {| store := store_of ∅; es := engine_failing;
       rand := ([] : list string); trace := [] |} in
  let srv' :=
    esConfigListener show NoJob unit unit (cfg true "old") (cfg true "new")
      srv in
  length (dispatched srv srv') = 1
  ∧ trace (run_all (dispatched srv srv') w)
    = [EvCall OpStop; EvReturn OpStop (Some refused);
       EvLogError (show refused);
       EvCall OpStart; EvReturn OpStart (Some refused);
       EvLogError (show refused)].
Proof.
  intros srv w srv'.
  destruct (connection_change_stops_then_starts_in_one_task
              show NoJob unit unit (cfg true "old") (cfg true "new") srv
              eq_refl eq_refl eq_refl) as (Hd & Hw).
  fold srv' in Hd. rewrite Hd. split; [reflexivity|].
  destruct (Hw w) as (Ht & _). exact Ht.
Defined.

(** Three calls on a cached id change nothing. *)
Lemma stable_once_cached_witness :
  let a : App NoJob unit unit :=
    {| Srv := {| Jobs := None; diagnosticId := "8x4kq1m7ejf5jr3ac9wo6yzbth";
                 config := cfg false "pw"; licenseValue := None;
                 goroutines := [] |};
       configListeners := []; licenseListeners := [] |} in
  let w : World :=
    {| store := store_of ∅; es := engine_up;
       rand := ["zzzzzzzzzzzzzzzzzzzzzzzzzz"]; trace := [] |} in
  eval (EnsureDiagnosticId_times "DiagnosticId" NoJob unit unit 3 a) w = a
  ∧ exec (EnsureDiagnosticId_times "DiagnosticId" NoJob unit unit 3 a) w = w.
Proof.
  intros a w.
  destruct (EnsureDiagnosticId_is_stable_once_cached
              "DiagnosticId" NoJob unit unit 3 a w ltac:(discriminate))
    as (_ & Ha & Hw & _).
  split; [exact Ha | exact Hw].
Defined.

(** A store that refuses the Save: the generated id is cached and the store
    still has no diagnostic id. *)
Lemma failed_save_witness :
  let a : App NoJob unit unit :=
    {| Srv := {| Jobs := None; diagnosticId := EmptyString;
                 config := cfg false "pw"; licenseValue := None;
                 goroutines := [] |};
       configListeners := []; licenseListeners := [] |} in
  let w : World :=
    {| store := store_unwritable; es := engine_up;
       rand := ["zzzzzzzzzzzzzzzzzzzzzzzzzz"]; trace := [] |} in
  let a' := eval (EnsureDiagnosticId "DiagnosticId" NoJob unit unit a) w in
  let w' := exec (EnsureDiagnosticId "DiagnosticId" NoJob unit unit a) w in
  DiagnosticId a' = "zzzzzzzzzzzzzzzzzzzzzzzzzz"
  ∧ props (store w') !! "DiagnosticId" = None
  ∧ logged (since w w') = [].
Proof.
  intros a w.
  edestruct (EnsureDiagnosticId_ignores_a_failed_save
               "DiagnosticId" NoJob unit unit a w)
    as (Hid & Hst & _ & Hlog); [reflexivity ..|].
  split; [exact Hid|]. split; [|exact Hlog].
  simpl. rewrite Hst. reflexivity.
Defined.

(** One run per row of the table. *)
Lemma transition_table_witness :
  let srv : Server NoJob unit unit :=
    {| Jobs := None; diagnosticId := EmptyString; config := cfg true "new";
       licenseValue := None; goroutines := [] |} in
  let w : World :=
    {| store := store_of ∅; es := engine_up;
       rand := ([] : list string); trace := [] |} in
  let act old new :=
    action (esConfigListener show NoJob unit unit old new)
      srv w in
  act (cfg false "pw") (cfg true "pw") = [OpStart]
  ∧ act (cfg true "pw") (cfg false "pw") = [OpStop]
  ∧ act (cfg true "old") (cfg true "new") = [OpStop; OpStart]
  ∧ act (cfg true "pw") (cfg true "pw") = []
  ∧ act (cfg false "old") (cfg false "new") = []
  ∧ act (cfg false "pw") (cfg false "pw") = [].
Proof.
  intros srv w act.
  pose proof (fun old new =>
    proj1 (proj2 (proj2 (config_listener_follows_transition_table
                           show NoJob unit unit old new srv w)))) as H.
  repeat split; apply H.
Defined.

(** With a license the engine is started, without one it is stopped. *)
Lemma license_listener_witness :
  let srv lic : Server NoJob unit unit :=
    {| Jobs := None; diagnosticId := EmptyString; config := cfg true "pw";
       licenseValue := lic; goroutines := [] |} in
  let w : World :=
    {| store := store_of ∅; es := engine_up;
       rand := ([] : list string); trace := [] |} in
  action (esLicenseListener show NoJob unit unit)
    (srv (Some {| LicenseId := "E20" |})) w = [OpStart]
  ∧ action (esLicenseListener show NoJob unit unit)
      (srv None) w = [OpStop].
Proof.
  intros srv w. split.
  - destruct (license_listener_starts_or_stops show NoJob unit unit
                (srv (Some {| LicenseId := "E20" |})) w)
      as ([_ H] & _); [discriminate | exact H].
  - destruct (license_listener_starts_or_stops show NoJob unit unit
                (srv None) w) as (_ & [_ H] & _); [reflexivity | exact H].
Defined.

(** The four branches of EnsureDiagnosticId on the in-memory store. *)
Lemma EnsureDiagnosticId_witness :
  let app id : App NoJob unit unit :=
    {| Srv := {| Jobs := None; diagnosticId := id; config := cfg false "pw";
                 licenseValue := None; goroutines := [] |};
       configListeners := []; licenseListeners := [] |} in
  let world st : World :=
    {| store := st; es := engine_up;
       rand := ["zzzzzzzzzzzzzzzzzzzzzzzzzz"]; trace := [] |} in
  let ensure := EnsureDiagnosticId "DiagnosticId" NoJob unit unit in
  let stored := store_of {[ "DiagnosticId" := "8x4kq1m7ejf5jr3ac9wo6yzbth" ]} in
  ensure (app "cached") (world (store_of ∅))
    = (app "cached", world (store_of ∅))
  ∧ eval (ensure (app EmptyString)) (world stored)
    = app "8x4kq1m7ejf5jr3ac9wo6yzbth"
  ∧ eval (ensure (app EmptyString)) (world (store_of ∅))
    = app "zzzzzzzzzzzzzzzzzzzzzzzzzz"
  ∧ props (store (exec (ensure (app EmptyString)) (world (store_of ∅))))
      !! "DiagnosticId" = Some "zzzzzzzzzzzzzzzzzzzzzzzzzz"
  ∧ eval (ensure (app EmptyString)) (world store_unreadable)
    = app EmptyString.
Proof.
  intros app world ensure stored.
  pose proof (fun a w => EnsureDiagnosticId_behaviour
                           (S:=MemStore) (E:=Engine) (G:=list string)
                           "DiagnosticId" NoJob unit unit a w) as H.
  split; [| split; [| split; [| split]]].
  - destruct (H (app "cached") (world (store_of ∅))) as (H1 & _).
    destruct H1 as [Ha Hw]; [discriminate|].
    apply injective_projections; [exact Ha | exact Hw].
  - destruct (H (app EmptyString) (world stored)) as (_ & H2 & _).
    edestruct H2 as (_ & Ha & _); [reflexivity | reflexivity | discriminate |].
    exact Ha.
  - destruct (H (app EmptyString) (world (store_of ∅))) as (_ & _ & H3 & _).
    edestruct H3 as (_ & Ha & _);
      [reflexivity | reflexivity | by left | reflexivity | reflexivity |].
    exact Ha.
  - destruct (H (app EmptyString) (world (store_of ∅))) as (_ & _ & H3 & _).
    edestruct H3 as (_ & _ & _ & Hs & _);
      [reflexivity | reflexivity | by left | reflexivity | reflexivity |].
    unfold ensure. rewrite Hs. reflexivity.
  - destruct (H (app EmptyString) (world store_unreadable)) as (_ & _ & _ & H4).
    edestruct H4 as (Ha & _); [reflexivity | reflexivity |].
    exact Ha.
Defined.

(** Three of the six factories present: their jobs, and only theirs, reach
    the workers and the schedulers. *)
Lemma initJobs_witness :
  let fresh : JobServer JobName (list string) (list string) :=
    {| JS_Workers := None; JS_Schedulers := None;
       DataRetentionJob := None; MessageExportJob := None;
       ElasticsearchAggregator := None; ElasticsearchIndexer := None;
       LdapSync := None; Migrations := None |} in
  let names (j : JobServer JobName (list string) (list string)) :=
    omap (fun k => producer k j) kinds in
  let s : Server (S:=MemStore) (E:=Engine) (G:=list string)
            JobName (list string) (list string) :=
    {| Jobs := None; diagnosticId := EmptyString; config := cfg false "pw";
       licenseValue := None; goroutines := [] |} in
  let s' :=
    initJobs JobName unit (list string) (list string)
      (Some (fun _ => "data_retention")) None None
      (Some (fun _ => "elasticsearch_post_indexing")) None
      (Some (fun _ => "migrations"))
      (fun _ => fresh) names (fun j => "scheduler of " :: names j)
      (fun _ => ()) s in
  (producer KDataRetention <$> Jobs s') = Some (Some "data_retention")
  ∧ (producer KMessageExport <$> Jobs s') = Some None
  ∧ (producer KLdapSync <$> Jobs s') = Some None
  ∧ (JS_Workers <$> Jobs s')
    = Some (Some ["data_retention"; "elasticsearch_post_indexing";
                  "migrations"])
  ∧ (JS_Schedulers <$> Jobs s')
    = Some (Some ["scheduler of "; "data_retention";
                  "elasticsearch_post_indexing"; "migrations"]).
Proof.
  intros fresh names s s'.
  destruct (initJobs_attaches_the_present_factories
              JobName unit (list string) (list string)
              (Some (fun _ => "data_retention")) None None
              (Some (fun _ => "elasticsearch_post_indexing")) None
              (Some (fun _ => "migrations"))
              (fun _ => fresh) names (fun j => "scheduler of " :: names j)
              (fun _ => ()) s)
    as (j & jw & jobs & HJ & Hp & _ & _ & _ & _ & Hjw & _ & Hw & Hs & Hsame & _).
  fold s' in HJ. rewrite HJ. cbn -[producer].
  assert (Hnames : names j = ["data_retention"; "elasticsearch_post_indexing";
                              "migrations"]).
  { unfold names, kinds. cbn -[producer]. rewrite !Hp. reflexivity. }
  rewrite !Hsame, !Hp, Hw, Hs. simpl.
  assert (Hnw : names jw = names j) by (rewrite Hjw; reflexivity).
  rewrite Hnw, Hnames.
  repeat split.
Defined.

(** A stored date, an unreadable store, and a value that is not a number. *)
Lemma getSystemInstallDate_witness :
  let a : App NoJob unit unit :=
    {| Srv := {| Jobs := None; diagnosticId := EmptyString;
                 config := cfg false "pw"; licenseValue := None;
                 goroutines := [] |};
       configListeners := []; licenseListeners := [] |} in
  let world st : World :=
    {| store := st; es := engine_up; rand := ([] : list string);
       trace := [] |} in
  let get st :=
    eval (getSystemInstallDate strconv.describe "InstallationDate"
            NoJob unit unit a) (world st) in
  get (store_of {[ "InstallationDate" := "1546300800000" ]})
    = (1546300800000%Z, None)
  ∧ get store_unreadable = (0%Z, Some locked)
  ∧ get (store_of {[ "InstallationDate" := "yesterday" ]})
    = (0%Z,
       Some {| Where := "getSystemInstallDate";
               Id := "app.system_install_date.parse_int.app_error";
               DetailedError :=
                 "strconv.ParseInt: parsing yesterday: invalid syntax";
               StatusCode := 500 |}).
Proof.
  intros a world get.
  pose proof (fun st => getSystemInstallDate_result
                          (S:=MemStore) (E:=Engine) (G:=list string)
                          strconv.describe "InstallationDate"
                          NoJob unit unit a (world st)) as H.
  split; [| split].
  - destruct (H (store_of {[ "InstallationDate" := "1546300800000" ]}))
      as (_ & _ & Hok & _).
    eapply Hok; reflexivity.
  - destruct (H store_unreadable) as (Herr & _).
    eapply Herr; reflexivity.
  - destruct (H (store_of {[ "InstallationDate" := "yesterday" ]}))
      as (_ & Hbad & _).
    edestruct Hbad as (v & ne & Hp & Hres); [reflexivity | reflexivity |].
    unfold get. rewrite Hres.
    injection Hp as _ <-. reflexivity.
Defined.

(** A restart on an engine whose calls fail: two errors logged, two calls
    made, the configuration untouched. *)
Lemma engine_errors_witness :
  let srv : Server NoJob unit unit :=
    {| Jobs := None; diagnosticId := EmptyString; config := cfg true "new";
       licenseValue := None; goroutines := [] |} in
  let w : World :=
    {| store := store_of ∅; es := engine_failing;
       rand := ([] : list string); trace := [] |} in
  let srv' :=
    esConfigListener show NoJob unit unit (cfg true "old") (cfg true "new")
      srv in
  let w' := run_all (dispatched srv srv') w in
  logged (since w w') = [show refused; show refused]
  ∧ calls (since w w') = [OpStop; OpStart]
  ∧ config srv' = config srv.
Proof.
  intros srv w srv' w'.
  destruct (engine_errors_are_logged_in_the_task
              (S:=MemStore) (E:=Engine) (G:=list string)
              show NoJob unit unit) as (_ & H & _).
  destruct (H (cfg true "old") (cfg true "new") srv)
    as (Hk & _ & _ & _ & Hc & _).
  apply Forall_inv in Hk. destruct Hk as [ops Hk].
  destruct (Hk w) as (_ & Hl & _).
  split; [exact Hl|]. split; [reflexivity | exact Hc].
Defined.

(** With indexing disabled and no license, StartElasticsearch still
    dispatches a Start. *)
Lemma initial_start_witness :
  let a : App NoJob unit unit :=
    {| Srv := {| Jobs := None; diagnosticId := EmptyString;
                 config := cfg false "pw"; licenseValue := None;
                 goroutines := [] |};
       configListeners := []; licenseListeners := [] |} in
  let w : World :=
    {| store := store_of ∅; es := engine_up;
       rand := ([] : list string); trace := [] |} in
  let a' := StartElasticsearch show NoJob unit unit a in
  calls (since w (run_all (dispatched (Srv a) (Srv a')) w)) = [OpStart]
  ∧ length (configListeners a') = 1
  ∧ length (licenseListeners a') = 1.
Proof.
  intros a w a'.
  destruct (StartElasticsearch_dispatches_an_initial_start
              show NoJob unit unit a w)
    as (_ & _ & _ & _ & _ & Hc & Hcl & Hll & _).
  split; [exact Hc|]. fold a' in Hcl, Hll. rewrite Hcl, Hll. by split.
Defined.

(** A first start generates and saves the id; a second application, started
    on the same store, reads it back. *)
Lemma restart_witness :
  let app : App NoJob unit unit :=
    {| Srv := {| Jobs := None; diagnosticId := EmptyString;
                 config := cfg false "pw"; licenseValue := None;
                 goroutines := [] |};
       configListeners := []; licenseListeners := [] |} in
  let w : World :=
    {| store := store_of ∅; es := engine_up;
       rand := ["8x4kq1m7ejf5jr3ac9wo6yzbth"; "zzzzzzzzzzzzzzzzzzzzzzzzzz"];
       trace := [] |} in
  let ensure := EnsureDiagnosticId "DiagnosticId" NoJob unit unit in
  let w1 := exec (ensure app) w in
  DiagnosticId (eval (ensure app) w) = "8x4kq1m7ejf5jr3ac9wo6yzbth"
  ∧ DiagnosticId (eval (ensure app) w1) = "8x4kq1m7ejf5jr3ac9wo6yzbth"
  ∧ generated (since w1 (exec (ensure app) w1)) = [].
Proof.
  intros app w ensure w1.
  edestruct (diagnostic_id_survives_a_restart
               "DiagnosticId" NoJob unit unit app app w)
    as (H1 & H2 & _ & H3 & _);
    [reflexivity | reflexivity | reflexivity | reflexivity | reflexivity
    | | reflexivity | reflexivity | reflexivity |];
    [discriminate|].
  split; [exact H1|]. split; [exact H2 | exact H3].
Defined.

(** The first of five calls generates and saves; the four after it add
    nothing. *)
Lemma at_most_once_witness :
  let app : App NoJob unit unit :=
    {| Srv := {| Jobs := None; diagnosticId := EmptyString;
                 config := cfg false "pw"; licenseValue := None;
                 goroutines := [] |};
       configListeners := []; licenseListeners := [] |} in
  let w : World :=
    {| store := store_of ∅; es := engine_up;
       rand := ["8x4kq1m7ejf5jr3ac9wo6yzbth"; "zzzzzzzzzzzzzzzzzzzzzzzzzz"];
       trace := [] |} in
  let w' :=
    exec (EnsureDiagnosticId_times "DiagnosticId" NoJob unit unit 5 app) w in
  saved (since w w')
  = [{| Name := "DiagnosticId"; Value := "8x4kq1m7ejf5jr3ac9wo6yzbth" |}]
  ∧ length (saved (since w w')) ≤ 1.
Proof.
  intros app w w'.
  destruct (EnsureDiagnosticId_generates_at_most_once
              "DiagnosticId" NoJob unit unit
              (Forall (fun id : string => id ≠ EmptyString)) 5 app w)
    as (_ & _ & Hsv & Hlen & _).
  - intros [|id rest] Hg; simpl.
    + split; [discriminate | constructor].
    + split; [exact (Forall_inv Hg) | exact (Forall_inv_tail Hg)].
  - repeat constructor; discriminate.
  - split; [exact Hsv | exact Hlen].
Defined.

(** Off, on, new password, off: Start, Stop, Start, Stop. *)
Lemma config_history_witness :
  let srv : Server NoJob unit unit :=
    {| Jobs := None; diagnosticId := EmptyString; config := cfg false "a";
       licenseValue := None; goroutines := [] |} in
  let w : World :=
    {| store := store_of ∅; es := engine_failing;
       rand := ([] : list string); trace := [] |} in
  let srv' :=
    config_changes show NoJob unit unit (cfg false "a")
      [cfg true "a"; cfg true "b"; cfg false "b"] srv in
  calls (since w (run_all (dispatched srv srv') w))
  = [OpStart; OpStop; OpStart; OpStop]
  ∧ length (goroutines srv') = 3.
Proof.
  intros srv w srv'.
  destruct (config_history_follows_the_table
              show NoJob unit unit (cfg false "a")
              [cfg true "a"; cfg true "b"; cfg false "b"] srv w)
    as (Hg & _ & Hc & _).
  split; [exact Hc|]. fold srv' in Hg. rewrite Hg. reflexivity.
Defined.

(** The in-memory engine without injected failures is such an engine: after
    off, on, new password, off it is stopped. *)
Lemma engine_follows_witness :
  let srv : Server NoJob unit unit :=
    {| Jobs := None; diagnosticId := EmptyString; config := cfg false "a";
       licenseValue := None; goroutines := [] |} in
  let w : World :=
    {| store := store_of ∅;
       es := {| running := false; startErr := None; stopErr := None |};
       rand := ([] : list string); trace := [] |} in
  let history := [cfg true "a"; cfg true "b"; cfg false "b"] in
  let srv' := config_changes show NoJob unit unit (cfg false "a") history srv in
  running (es (run_all (dispatched srv srv') w)) = false
  ∧ running
      (es (run_all
             (dispatched srv
                (config_changes show NoJob unit unit (cfg false "a")
                   [cfg true "a"; cfg true "b"] srv)) w)) = true.
Proof.
  intros srv w history srv'.
  assert (Hstart : ∀ e : Engine,
            startErr e = None ∧ stopErr e = None →
            (startErr (Start e).2 = None ∧ stopErr (Start e).2 = None)
            ∧ running (Start e).2 = true).
  { intros [r se te] [Hs Ht]. simpl in *. subst. by repeat split. }
  assert (Hstop : ∀ e : Engine,
            startErr e = None ∧ stopErr e = None →
            (startErr (Stop e).2 = None ∧ stopErr (Stop e).2 = None)
            ∧ running (Stop e).2 = false).
  { intros [r se te] [Hs Ht]. simpl in *. subst. by repeat split. }
  split.
  - exact (proj2 (engine_follows_the_configuration
                    show NoJob unit unit running
                    (fun e => startErr e = None ∧ stopErr e = None)
                    (cfg false "a") history srv w Hstart Hstop
                    (conj eq_refl eq_refl) eq_refl)).
  - exact (proj2 (engine_follows_the_configuration
                    show NoJob unit unit running
                    (fun e => startErr e = None ∧ stopErr e = None)
                    (cfg false "a") [cfg true "a"; cfg true "b"] srv w
                    Hstart Hstop (conj eq_refl eq_refl) eq_refl)).
Defined.

(** With a license and indexing disabled the engine ends up running; without
    a license and indexing enabled it ends up stopped. *)
Lemma license_override_witness :
  let srv c lic : Server NoJob unit unit :=
    {| Jobs := None; diagnosticId := EmptyString; config := c;
       licenseValue := lic; goroutines := [] |} in
  let world r : World :=
    {| store := store_of ∅;
       es := {| running := r; startErr := None; stopErr := None |};
       rand := ([] : list string); trace := [] |} in
  let after s w :=
    run_all (dispatched s (esLicenseListener show NoJob unit unit s)) w in
  running (es (after (srv (cfg false "pw") (Some {| LicenseId := "E20" |}))
                 (world false))) = true
  ∧ running (es (after (srv (cfg true "pw") None) (world true))) = false.
Proof.
  intros srv world after.
  assert (Hstart : ∀ e : Engine,
            startErr e = None ∧ stopErr e = None →
            (startErr (Start e).2 = None ∧ stopErr (Start e).2 = None)
            ∧ running (Start e).2 = true).
  { intros [r se te] [Hs Ht]. simpl in *. subst. by repeat split. }
  assert (Hstop : ∀ e : Engine,
            startErr e = None ∧ stopErr e = None →
            (startErr (Stop e).2 = None ∧ stopErr (Stop e).2 = None)
            ∧ running (Stop e).2 = false).
  { intros [r se te] [Hs Ht]. simpl in *. subst. by repeat split. }
  split.
  - exact (proj1 (proj2 (license_listener_overrides_the_configuration
                           show NoJob unit unit running
                           (fun e => startErr e = None ∧ stopErr e = None)
                           (srv (cfg false "pw") (Some {| LicenseId := "E20" |}))
                           (world false) Hstart Hstop (conj eq_refl eq_refl)))).
  - exact (proj1 (proj2 (license_listener_overrides_the_configuration
                           show NoJob unit unit running
                           (fun e => startErr e = None ∧ stopErr e = None)
                           (srv (cfg true "pw") None)
                           (world true) Hstart Hstop (conj eq_refl eq_refl)))).
Defined.

(** A negative date is returned as it is; one past the largest 64-bit value
    is an error with value 0. *)
Lemma install_date_edges_witness :
  let a : App NoJob unit unit :=
    {| Srv := {| Jobs := None; diagnosticId := EmptyString;
                 config := cfg false "pw"; licenseValue := None;
                 goroutines := [] |};
       configListeners := []; licenseListeners := [] |} in
  let world v : World :=
    {| store := store_of {[ "InstallationDate" := v ]}; es := engine_up;
       rand := ([] : list string); trace := [] |} in
  let get v :=
    eval (getSystemInstallDate strconv.describe "InstallationDate"
            NoJob unit unit a) (world v) in
  get "-86400000" = ((-86400000)%Z, None)
  ∧ (get "9223372036854775808").1 = 0%Z
  ∧ (get "9223372036854775807") = (9223372036854775807%Z, None).
Proof.
  intros a world get.
  pose proof (fun v body =>
    getSystemInstallDate_edge_values
      (S:=MemStore) (E:=Engine) (G:=list string)
      strconv.describe "InstallationDate" NoJob unit unit a (world v)
      {| Name := "InstallationDate"; Value := v |}
      (store_of {[ "InstallationDate" := v ]}) body eq_refl) as H.
  split; [| split].
  - destruct (H "-86400000" "86400000") as (_ & Hd).
    destruct Hd as [_ Hneg]; [discriminate | reflexivity |].
    exact (Hneg eq_refl).
  - destruct (H "9223372036854775808" "9223372036854775808") as (_ & Hd).
    destruct Hd as [Hpos _]; [discriminate | reflexivity |].
    exact (proj1 (Hpos (or_introl eq_refl))).
  - destruct (H "9223372036854775807" "9223372036854775807") as (_ & Hd).
    destruct Hd as [Hpos _]; [discriminate | reflexivity |].
    exact (Hpos (or_introl eq_refl)).
Defined.

(** With the data-retention and migrations factories present, the migrations
    factory finds the data-retention job attached and no workers yet. *)
Lemma factory_view_witness :
  let fresh : JobServer JobName (list string) (list string) :=
    {| JS_Workers := None; JS_Schedulers := None;
       DataRetentionJob := None; MessageExportJob := None;
       ElasticsearchAggregator := None; ElasticsearchIndexer := None;
       LdapSync := None; Migrations := None |} in
  let s : Server (S:=MemStore) (E:=Engine) (G:=list string)
            JobName (list string) (list string) :=
    {| Jobs := None; diagnosticId := EmptyString; config := cfg false "pw";
       licenseValue := None; goroutines := [] |} in
  let seen :=
    attached_before JobName unit (list string) (list string)
      (Some (fun _ => "data_retention")) None None None None
      (Some (fun _ => "migrations")) (fun _ => fresh) (fun _ => ())
      KMigrations s in
  producer KDataRetention seen = Some "data_retention"
  ∧ producer KMigrations seen = None
  ∧ JS_Workers seen = None.
Proof.
  intros fresh s seen.
  pose proof (fun k' =>
    initJobs_factory_sees_earlier_producers_only
      JobName unit (list string) (list string)
      (Some (fun _ => "data_retention")) None None None None
      (Some (fun _ => "migrations")) (fun _ => fresh)
      (fun j => omap (fun k => producer k j) kinds)
      (fun j => omap (fun k => producer k j) kinds)
      (fun _ => ()) s KMigrations k') as H.
  split; [| split].
  - destruct (H KDataRetention) as (_ & _ & Hp & _). exact Hp.
  - destruct (H KMigrations) as (_ & _ & Hp & _). exact Hp.
  - destruct (H KMigrations) as (_ & _ & _ & Hw & _). exact Hw.
Defined.
